(** * ehtim/survey.py: the parameter-survey driver, embedded in Rocq

    The module is glue around an external imaging library.  The embedding
    keeps what the module itself decides: attribute resolution at
    construction, the order of the pipeline stages, the self-calibration
    loops, the short-baseline rescaling loop, the files it asks to be
    written and the parameter table.

    Conventions.
    - A Python value is a [value]; the attributes of the ParameterSet are
      one dictionary, [self], as [setattr] and [hasattr] see them.
    - The swept-parameter row is a dict that the ParameterSet shares with
      its caller: it lives in [heap] and is held as a [VRef].
    - A stage is a program of the monad [M]: it threads the state and may
      raise; the state reached when it raises is kept.
    - A call into ehtim, numpy, pandas or os is an event: it is appended to
      [log] with its arguments and answered by an arbitrary handler [lib],
      with a value or with an error.  A library method that updates its
      receiver in place answers with the updated receiver.
    - The iteration counts [sc_phase] and [sc_ap] are integers; any input
      the embedding does not follow (a float count, arithmetic on a
      non-number) ends in [Unmodelled] rather than in a guessed result.
    - [run_survey] only hands [run_pset] to [paramsurvey.map]; the parallel
      dispatch is not embedded. *)

From Stdlib Require Import ZArith Floats Ascii.
From stdpp Require Import gmap strings list fin_maps pretty.

#[local] Set Warnings "-register-all".
#[local] Open Scope Z_scope.

(** ** Numbers

    Python floats and numpy float64/complex128 values.  The operations are
    the ones the module applies; they are kept abstract so that nothing is
    assumed about rounding, infinities or NaN.  The single law relates the
    two comparisons. *)

Class Numerics := {
  F : Type;                       (* float64 *)
  C : Type;                       (* complex128 *)
  fofZ : Z → F;                   (* int -> float conversion *)
  flit : Z → Z → F;               (* the decimal literal m * 10^e *)
  fadd : F → F → F;
  fsub : F → F → F;
  fmul : F → F → F;
  fdiv : F → F → F;
  fsq : F → F;                    (* x ** 2 *)
  fsqrt : F → F;                  (* x ** 0.5 *)
  feqb : F → F → bool;            (* == *)
  fltb : F → F → bool;            (* < *)
  fgeb : F → F → bool;            (* >= *)
  cmul : C → F → C;               (* complex times float *)
  RADPERUAS : F;                  (* eh.RADPERUAS, radians per microarcsecond *)
  fltb_fgeb : ∀ x y, fltb x y = true → fgeb x y = false
}.

Section Survey.
Context `{Numerics}.

(** ** Values *)

(** One row of [obs.data], the visibility table of an [Obsdata].  The
    module names [u], [v] and the eight fields of line 120; the other
    fields stand for the rest of the library's row, which the module never
    touches. *)
Record datum := Datum {
  time : F; tint : F; t1 : string; t2 : string; tau1 : F; tau2 : F;
  u : F; v : F;
  vis : C; qvis : C; uvis : C; vvis : C;
  sigma : F; qsigma : F; usigma : F; vsigma : F
}.

(** Python values as the module sees them.  [VRef] is a dict held by
    reference (the swept-parameter row); [VObs] is an [Obsdata] whose table
    the module reads and writes; [VObj] is any other library object. *)
Inductive value :=
| VNone
| VBool (b : bool)
| VInt (z : Z)
| VFloat (x : F)
| VStr (s : string)
| VList (l : list value)
| VMap (m : gmap string value)
| VRef (l : nat)
| VObs (data : list datum) (id : nat)
| VObj (id : nat).

Inductive exn :=
| AttributeError (attr : string)
| KeyError (key : string)
| UnboundLocalError (var : string)
| TypeError
| ZeroDivisionError
| ExtError (call : string) (msg : string)   (* raised inside an external call *)
| Unmodelled.                               (* input outside the embedding *)

Definition res (A : Type) : Type := exn + A.

#[global] Instance res_ret : MRet res := λ A a, inr a.
#[global] Instance res_bind : MBind res := λ A B f m,
  match m with inl e => inl e | inr a => f a end.

(** *** Numeric coercions and operators *)

Definition as_float (x : value) : option F :=
  match x with
  | VBool b => Some (fofZ (if b then 1 else 0))
  | VInt z => Some (fofZ z)
  | VFloat x => Some x
  | _ => None
  end.

Definition as_int (x : value) : option Z :=
  match x with
  | VBool b => Some (if b then 1 else 0)
  | VInt z => Some z
  | _ => None
  end.

Definition numeric (x : value) : Prop := is_Some (as_float x).

(** [a * b] on numbers; sequence repetition and other operand kinds are
    outside the embedding. *)
Definition py_mul (a b : value) : res value :=
  match as_int a, as_int b with
  | Some x, Some y => inr (VInt (x * y))
  | _, _ =>
      match as_float a, as_float b with
      | Some x, Some y => inr (VFloat (fmul x y))
      | _, _ => inl Unmodelled
      end
  end.

(** [a / b]: true division; Python integers raise on a zero divisor, a
    float64 operand follows numpy. *)
Definition py_div (a b : value) : res F :=
  match as_int a, as_int b with
  | Some x, Some y =>
      if y =? 0 then inl ZeroDivisionError else inr (fdiv (fofZ x) (fofZ y))
  | _, _ =>
      match as_float a, as_float b with
      | Some x, Some y => inr (fdiv x y)
      | _, _ => inl Unmodelled
      end
  end.

(** [a == b] on scalars. *)
Definition py_eq (a b : value) : res bool :=
  match a, b with
  | VStr s, VStr t => inr (bool_decide (s = t))
  | VNone, VNone => inr true
  | VNone, (VBool _ | VInt _ | VFloat _ | VStr _) => inr false
  | (VBool _ | VInt _ | VFloat _ | VStr _), VNone => inr false
  | VStr _, (VBool _ | VInt _ | VFloat _) => inr false
  | (VBool _ | VInt _ | VFloat _), VStr _ => inr false
  | _, _ =>
      match as_int a, as_int b with
      | Some x, Some y => inr (x =? y)
      | _, _ =>
          match as_float a, as_float b with
          | Some x, Some y => inr (feqb x y)
          | _, _ => inl Unmodelled
          end
      end
  end.

(** [x != 0.] *)
Definition ne_zero (x : value) : bool :=
  match x with
  | VBool b => b
  | VInt z => negb (z =? 0)
  | VFloat x => negb (feqb x (fofZ 0))
  | _ => true
  end.

(** Truth value, as [if x:] takes it. *)
Definition truthy (x : value) : bool :=
  match x with
  | VNone => false
  | VBool b => b
  | VInt z => negb (z =? 0)
  | VFloat x => negb (feqb x (fofZ 0))
  | VStr s => negb (bool_decide (s = ""))
  | VList l => match l with [] => false | _ => true end
  | VMap m => negb (bool_decide (m = ∅))
  | _ => true
  end.

(** [x is True] *)
Definition is_True (x : value) : bool :=
  match x with VBool true => true | _ => false end.

(** [x == True] *)
Definition eq_True (x : value) : bool :=
  match x with
  | VBool b => b
  | VInt z => z =? 1
  | VFloat x => feqb x (fofZ 1)
  | _ => false
  end.

(** [x > 0] *)
Definition gt_zero (x : value) : res bool :=
  match as_int x with
  | Some z => inr (0 <? z)
  | None =>
      match as_float x with
      | Some y => inr (fltb (fofZ 0) y)
      | None => inl TypeError
      end
  end.

Definition as_str (x : value) : res string :=
  match x with VStr s => inr s | _ => inl TypeError end.

(** ['%s' % x] for the kinds whose text does not depend on float printing. *)
Definition py_str (x : value) : res string :=
  match x with
  | VStr s => inr s
  | VInt z => inr (pretty z)
  | VBool b => inr (if b then "True" else "False")
  | VNone => inr "None"
  | _ => inl Unmodelled
  end.

(** ['%0.7i' % i]: at least seven digits, zero padded, sign in front. *)
Definition fmt_07i (i : value) : res string :=
  match as_int i with
  | Some z =>
      let digits := pretty (Z.to_N (Z.abs z)) in
      let pad := String.concat "" (replicate (7 - String.length digits)%nat "0") in
      inr ((if z <? 0 then "-" else "") +:+ pad +:+ digits)
  | None => match i with VFloat _ => inl Unmodelled | _ => inl TypeError end
  end.

Fixpoint ends_with_slash (s : string) : bool :=
  match s with
  | EmptyString => false
  | String c EmptyString => bool_decide (c = "/"%char)
  | String _ s' => ends_with_slash s'
  end.

(** [os.path.join(a, b)] on POSIX paths. *)
Definition path_join (a b : string) : string :=
  match b with
  | String "/" _ => b
  | _ =>
      if bool_decide (a = "") then b
      else if ends_with_slash a then a +:+ b
      else a +:+ "/" +:+ b
  end.

(** ** The run state

    [self] is the attribute dictionary of the one [ParameterSet] being
    built or run; [heap] holds the dicts that are shared by reference;
    [files] is the set of paths that exist; [log] is the sequence of
    external calls made so far, oldest first. *)

Definition event : Type := string * list value.

Record state := State {
  self : gmap string value;
  heap : gmap nat (gmap string value);
  files : gset string;
  log : list event
}.

Definition M (A : Type) : Type := state → res A * state.

#[global] Instance M_ret : MRet M := λ A a s, (inr a, s).
#[global] Instance M_bind : MBind M := λ A B f m s,
  match m s with
  | (inl e, s') => (inl e, s')
  | (inr a, s') => f a s'
  end.

Definition raise {A} (e : exn) : M A := λ s, (inl e, s).

Definition lift {A} (r : res A) : M A := λ s, (r, s).

(** [try: m except: h] with a bare [except]. *)
Definition try_except {A} (m h : M A) : M A := λ s,
  match m s with
  | (inl _, s') => h s'
  | r => r
  end.

Definition attr (d : gmap string value) (name : string) : res value :=
  match d !! name with
  | Some x => inr x
  | None => inl (AttributeError name)
  end.

Definition get_self : M (gmap string value) := λ s, (inr (self s), s).

Definition set_self (d : gmap string value) : M unit := λ s,
  (inr (), State d (heap s) (files s) (log s)).

Definition getattr (name : string) : M value := λ s, (attr (self s) name, s).

Definition setattr (name : string) (x : value) : M unit := λ s,
  (inr (), State (<[name := x]> (self s)) (heap s) (files s) (log s)).

(** [for param in d: setattr(self, param, d[param])] *)
Definition setattrs (d : gmap string value) : M unit := λ s,
  (inr (),
   State (map_fold (λ k x acc, <[k := x]> acc) (self s) d) (heap s) (files s) (log s)).

(** Reading and writing a dict held by reference. *)
Definition deref (r : value) : M (gmap string value) := λ s,
  match r with
  | VRef l =>
      match heap s !! l with
      | Some d => (inr d, s)
      | None => (inl Unmodelled, s)
      end
  | VMap d => (inr d, s)
  | _ => (inl TypeError, s)
  end.

Definition setitem (r : value) (key : string) (x : value) : M unit := λ s,
  match r with
  | VRef l =>
      match heap s !! l with
      | Some d =>
          (inr (), State (self s) (<[l := <[key := x]> d]> (heap s)) (files s) (log s))
      | None => (inl Unmodelled, s)
      end
  | _ => (inl Unmodelled, s)
  end.

Definition path_exists (p : string) : M bool := λ s,
  (inr (bool_decide (p ∈ files s)), s).

Definition add_file (p : string) : M unit := λ s,
  (inr (), State (self s) (heap s) ({[p]} ∪ files s) (log s)).

(** *** External calls

    The handler answers a call from its name, its arguments and the calls
    made before it, with a value or an error message.  A library method
    that updates its receiver answers with the updated receiver. *)

Variable lib : list event → string → list value → string + value.

Definition ext (name : string) (args : list value) : M value := λ s,
  let s' := State (self s) (heap s) (files s) (log s ++ [(name, args)]) in
  match lib (log s) name args with
  | inl msg => (inl (ExtError name msg), s')
  | inr x => (inr x, s')
  end.

(** An external call that writes the file [p] when it returns. *)
Definition ext_write (name : string) (args : list value) (p : string) : M unit :=
  _ ← ext name args; add_file p.

Definition kw (l : list (string * value)) : value := VMap (list_to_map l).

(** ** ParameterSet.__init__ *)

(** [self.<name> *= eh.RADPERUAS] *)
Definition to_radians (name : string) : M unit :=
  x ← getattr name;
  y ← lift (py_mul x (VFloat RADPERUAS));
  setattr name y.

Definition init (paramset : nat) (params_fixed : gmap string value) : M unit :=
  row ← deref (VRef paramset);
  set_self ∅;;
  setattrs row;;
  (if bool_decide (0 < size params_fixed)%nat then setattrs params_fixed else mret ());;
  setattr "paramset" (VRef paramset);;
  setattr "params_fixed" (VMap params_fixed);;
  base ← getattr "outfile_base";
  i ← getattr "i";
  sbase ← lift (py_str base);
  si ← lift (fmt_07i i);
  setattr "outfile" (VStr (sbase +:+ "_" +:+ si));;
  to_radians "fov";;
  to_radians "reverse_taper_uas";;
  to_radians "prior_fwhm".

(** ** load_data *)

Definition load_data : M unit :=
  infile ← getattr "infile";
  obs ← ext "load_uvfits" [infile];
  setattr "obs" obs;;
  obs ← getattr "obs";
  obs ← ext "add_scans" [obs];
  setattr "obs" obs;;
  avg ← getattr "avg_time";
  scan ← lift (py_eq avg (VStr "scan"));
  obs ← getattr "obs";
  obs ← (if scan : bool
         then ext "avg_coherent" [obs; VFloat (fofZ 0); kw [("scan_avg", VBool true)]]
         else avg ← getattr "avg_time"; ext "avg_coherent" [obs; avg]);
  setattr "obs" obs.

(** ** preimcal *)

Definition uvdist (d : datum) : F := fsqrt (fadd (fsq (u d)) (fsq (v d))).

Definition fields : list string :=
  ["vis"; "qvis"; "uvis"; "vvis"; "sigma"; "qsigma"; "usigma"; "vsigma"].

(** [data[field][j] *= r] *)
Definition scale_field (field : string) (r : F) (d : datum) : res datum :=
  let 'Datum a b c1 c2 e f g h i j k l m n o p := d in
  if bool_decide (field = "vis") then inr (Datum a b c1 c2 e f g h (cmul i r) j k l m n o p)
  else if bool_decide (field = "qvis") then inr (Datum a b c1 c2 e f g h i (cmul j r) k l m n o p)
  else if bool_decide (field = "uvis") then inr (Datum a b c1 c2 e f g h i j (cmul k r) l m n o p)
  else if bool_decide (field = "vvis") then inr (Datum a b c1 c2 e f g h i j k (cmul l r) m n o p)
  else if bool_decide (field = "sigma") then inr (Datum a b c1 c2 e f g h i j k l (fmul m r) n o p)
  else if bool_decide (field = "qsigma") then inr (Datum a b c1 c2 e f g h i j k l m (fmul n r) o p)
  else if bool_decide (field = "usigma") then inr (Datum a b c1 c2 e f g h i j k l m n (fmul o r) p)
  else if bool_decide (field = "vsigma") then inr (Datum a b c1 c2 e f g h i j k l m n o (fmul p r))
  else inl (KeyError field).

Fixpoint foldE {A B} (f : A → B → res A) (a : A) (l : list B) : res A :=
  match l with
  | [] => inr a
  | b :: l' => a' ← f a b; foldE f a' l'
  end.

Fixpoint mapE {A B} (f : A → res B) (l : list A) : res (list B) :=
  match l with
  | [] => inr []
  | a :: l' => b ← f a; bs ← mapE f l'; inr (b :: bs)
  end.

(** [x >= cut] for a float64 [x]. *)
Definition ge_value (x : F) (cut : value) : res bool :=
  match as_float cut with
  | Some c => inr (fgeb x c)
  | None => inl TypeError
  end.

(** One trip of the loop over [j]. *)
Definition rescale_row (attrs : gmap string value) (d : datum) : res datum :=
  cut ← attr attrs "uv_zblcut";
  skip ← ge_value (uvdist d) cut;
  if skip : bool then inr d
  else
    foldE (λ d field,
             zbl ← attr attrs "zbl";
             zbl_tot ← attr attrs "zbl_tot";
             r ← py_div zbl zbl_tot;
             scale_field field r d) d fields.

(** Lines 117 to 121: the short-baseline rescaling of [self.obs.data]. *)
Definition rescale_short_baselines (attrs : gmap string value) (data : list datum)
  : res (list datum) :=
  zbl ← attr attrs "zbl";
  zbl_tot ← attr attrs "zbl_tot";
  same ← py_eq zbl zbl_tot;
  if same : bool then inr data else mapE (rescale_row attrs) data.

Definition median_amp (site : string) : M value :=
  obs ← getattr "obs";
  tab ← ext "unpack_bl" [obs; VStr "AA"; VStr site; VStr "amp"];
  ext "median" [tab].

Definition preimcal : M unit :=
  zbl_tot ← try_except (median_amp "AX") (median_amp "AP");
  setattr "zbl_tot" zbl_tot;;
  obs ← getattr "obs";
  s1 ← ext "unpack" [obs; VList [VStr "t1"]];
  obs ← getattr "obs";
  s2 ← ext "unpack" [obs; VList [VStr "t2"]];
  obs ← getattr "obs";
  obs ← ext "flag_tarr" [obs; s1; s2];
  setattr "obs" obs;;
  obs ← getattr "obs";
  obs ← ext "Obsdata" [obs];
  setattr "obs" obs;;
  obs ← getattr "obs";
  obs_orig ← ext "copy" [obs];
  setattr "obs_orig" obs_orig;;
  attrs ← get_self;
  obs ← getattr "obs";
  match obs with
  | VObs data id =>
      data' ← lift (rescale_short_baselines attrs data);
      setattr "obs" (VObs data' id)
  | _ =>
      (* an answer of the library without a table: only the test of line
         117 can be followed *)
      zbl ← getattr "zbl";
      zbl_tot ← getattr "zbl_tot";
      same ← lift (py_eq zbl zbl_tot);
      if same : bool then mret () else raise Unmodelled
  end;;
  obs ← getattr "obs";
  obs ← ext "reorder_tarr_snr" [obs];
  setattr "obs" obs;;
  obs ← getattr "obs";
  obs_sc ← ext "copy" [obs];
  setattr "obs_sc" obs_sc;;
  taper ← getattr "reverse_taper_uas";
  tapered ← lift (gt_zero taper);
  (if tapered : bool
   then obs_sc ← getattr "obs_sc";
        taper ← getattr "reverse_taper_uas";
        obs_sc ← ext "reverse_taper" [obs_sc; taper];
        setattr "obs_sc" obs_sc
   else mret ());;
  obs_sc ← getattr "obs_sc";
  sys_noise ← getattr "sys_noise";
  obs_sc ← ext "add_fractional_noise" [obs_sc; sys_noise];
  setattr "obs_sc" obs_sc;;
  obs_sc ← getattr "obs_sc";
  obs_sc_init ← ext "copy" [obs_sc];
  setattr "obs_sc_init" obs_sc_init.

(** ** init_img *)

Definition init_img : M unit :=
  obs_sc ← getattr "obs_sc";
  npixels ← getattr "npixels";
  fov ← getattr "fov";
  emptyprior ← ext "make_square" [obs_sc; npixels; fov];
  zbl ← getattr "zbl";
  w1 ← getattr "prior_fwhm";
  w2 ← getattr "prior_fwhm";
  gaussprior ← ext "add_gauss" [emptyprior; zbl; VList [w1; w2; VInt 0; VInt 0; VInt 0]];
  zbl ← getattr "zbl";
  faint ← lift (py_mul zbl (VFloat (flit 1 (-3))));
  w1 ← getattr "prior_fwhm";
  w2 ← getattr "prior_fwhm";
  w3 ← getattr "prior_fwhm";
  w4 ← getattr "prior_fwhm";
  gaussprior ← ext "add_gauss" [gaussprior; faint; VList [w1; w2; VInt 0; w3; w4]];
  initimg ← ext "copy" [gaussprior];
  setattr "initimg" initimg.

(** ** make_img *)

(** [if hasattr(self, key) and self.key != 0.: term[key] = self.src] *)
Definition select (attrs : gmap string value) (key src : string)
    (term : gmap string value) : res (gmap string value) :=
  match attrs !! key with
  | Some w =>
      if ne_zero w then x ← attr attrs src; inr (<[key := x]> term)
      else inr term
  | None => inr term
  end.

Definition diag_closure_set (attrs : gmap string value) : bool :=
  match attrs !! "diag_closure" with
  | Some x => is_True x
  | None => false
  end.

(** Lines 169 to 183. *)
Definition data_terms (attrs : gmap string value) : res (gmap string value) :=
  t ← select attrs "vis" "vis" ∅;
  t ← select attrs "amp" "amp" t;
  if diag_closure_set attrs
  then t ← select attrs "logcamp_diag" "logcamp" t;
       select attrs "cphase_diag" "cphase" t
  else t ← select attrs "logcamp" "logcamp" t;
       select attrs "cphase" "cphase" t.

(** Lines 186 to 198. *)
Definition reg_terms (attrs : gmap string value) : res (gmap string value) :=
  t ← select attrs "simple" "simple" ∅;
  t ← select attrs "tv2" "tv2" t;
  t ← select attrs "tv" "tv" t;
  t ← select attrs "l1" "l1" t;
  t ← select attrs "flux" "flux" t;
  select attrs "rgauss" "rgauss" t.

(** [((1.0 + e) ** 0.5 - 1.0) * 0.25] *)
Definition noise_floor (e : value) : res value :=
  match as_float e with
  | Some x =>
      inr (VFloat (fmul (fsub (fsqrt (fadd (fofZ 1) x)) (fofZ 1)) (flit 25 (-2))))
  | None => inl Unmodelled
  end.

(** [for key in d: d[key] = f(d[key])], on the dict itself. *)
Definition update_all (f : value → res value) (d : gmap string value)
  : res (gmap string value) :=
  map_fold (λ k x acc, m ← acc; y ← f x; inr (<[k := y]> m)) (inr d) d.

(** Lines 204 to 206. *)
Definition systematic_noise (attrs : gmap string value) : res (gmap string value) :=
  budget ← attr attrs "SEFD_error_budget";
  match budget with
  | VMap d => update_all noise_floor d
  | _ => inl Unmodelled
  end.

(** The local variables that the loops of [make_img] update. *)
Record locals := Locals {
  imgr : value;
  data_term : gmap string value;
  caltab : option value
}.

(** [for key in dterms: data_term[key] *= self.<factor>] *)
Definition boost (term : gmap string value) (factor : string) : M (gmap string value) :=
  if bool_decide (term = ∅) then mret term
  else x ← getattr factor; lift (update_all (λ w, py_mul w x) term).

(** [eh.imager.Imager(obs_sc, init, prior_im=self.initimg, ...)] *)
Definition new_imager (obs_sc init : value) (term reg noise : gmap string value)
  : M value :=
  prior ← getattr "initimg";
  zbl ← getattr "zbl";
  maxit ← getattr "maxit";
  ttype ← getattr "ttype";
  cut ← getattr "uv_zblcut";
  stop ← getattr "stop";
  ext "Imager" [obs_sc; init; prior; zbl; VMap term; maxit; VMap noise; VMap reg;
                ttype; cut; stop].

(** [imgr.make_image_I(show_updates=False, niter=..., blur_frac=...)] *)
Definition make_image_I (im : value) : M value :=
  niter ← getattr "niter_static";
  blur ← getattr "blurfrac";
  ext "make_image_I" [im; niter; blur].

(** The number of trips of [while idx < bound] from [idx = 0], for an
    integer bound. *)
Definition trip_count (bound : value) : res nat :=
  match as_int bound with
  | Some n => inr (Z.to_nat n)
  | None => match bound with VFloat _ => inl Unmodelled | _ => inl TypeError end
  end.

Fixpoint while_lt (trips : nat) (idx : Z) (body : Z → locals → M locals) (l : locals)
  : M (Z * locals) :=
  match trips with
  | O => mret (idx, l)
  | S n => l' ← body idx l; while_lt n (idx + 1) body l'
  end.

(** One trip of the phase-only loop, lines 227 to 247. *)
Definition phase_round (res : value) (reg noise : gmap string value)
    (sc_p_idx : Z) (l : locals) : M locals :=
  last ← ext "out_last" [imgr l];
  init ← ext "blur_circ" [last; res];
  term ← (if sc_p_idx =? 0 then boost (data_term l) "xdw_phase" else mret (data_term l));
  obs_sc ← getattr "obs_sc";
  new ← new_imager obs_sc init term reg noise;
  imgr' ← make_image_I new;
  obs_sc_init ← getattr "obs_sc_init";
  last ← ext "out_last" [imgr'];
  ttype ← getattr "ttype";
  obs_sc ← ext "selfcal" [obs_sc_init; last; VStr "phase"; ttype; kw []];
  setattr "obs_sc" obs_sc;;
  mret (Locals imgr' term (caltab l)).

(** One trip of the amplitude+phase loop, lines 254 to 275.  The test on
    line 258 reads [sc_p_idx], the counter the phase loop left behind. *)
Definition amp_round (res : value) (reg noise : gmap string value)
    (sc_p_idx : Z) (sc_ap_idx : Z) (l : locals) : M locals :=
  last ← ext "out_last" [imgr l];
  init ← ext "blur_circ" [last; res];
  term ← (if sc_p_idx =? 0 then boost (data_term l) "xdw_ap" else mret (data_term l));
  obs_sc ← getattr "obs_sc";
  new ← new_imager obs_sc init term reg noise;
  imgr' ← make_image_I new;
  obs_sc_init ← getattr "obs_sc_init";
  last ← ext "out_last" [imgr'];
  ttype ← getattr "ttype";
  gaintol ← getattr "gaintol";
  caltab' ← ext "selfcal" [obs_sc_init; last; VStr "both"; ttype;
                          kw [("gain_tol", gaintol); ("caltable", VBool true);
                              ("processes", VInt (-1))]];
  obs_sc_init ← getattr "obs_sc_init";
  obs_sc ← ext "applycal" [caltab'; obs_sc_init;
                           kw [("interp", VStr "nearest"); ("extrapolate", VBool true)]];
  setattr "obs_sc" obs_sc;;
  mret (Locals imgr' term (Some caltab')).

(** Lines 217 to 275: the body of [if self.selfcal:]. *)
Definition selfcal_rounds (res : value) (reg noise : gmap string value) (l : locals)
  : M locals :=
  obs_sc ← getattr "obs_sc";
  last ← ext "out_last" [imgr l];
  ttype ← getattr "ttype";
  obs_sc ← ext "selfcal" [obs_sc; last; VStr "phase"; ttype;
                          kw [("solution_interval", VFloat (fofZ 0));
                              ("processes", VInt (-1))]];
  setattr "obs_sc" obs_sc;;
  sc_phase ← getattr "sc_phase";
  n ← lift (trip_count sc_phase);
  r ← while_lt n 0 (phase_round res reg noise) l;
  sc_ap ← getattr "sc_ap";
  m ← lift (trip_count sc_ap);
  r' ← while_lt m 0 (amp_round res reg noise r.1) r.2;
  mret r'.2.

Definition make_img : M unit :=
  attrs ← get_self;
  term ← lift (data_terms attrs);
  reg ← lift (reg_terms attrs);
  noise ← lift (systematic_noise attrs);
  obs_sc ← getattr "obs_sc";
  initimg ← getattr "initimg";
  new ← new_imager obs_sc initimg term reg noise;
  obs ← getattr "obs";
  res ← ext "res" [obs];
  imgr' ← make_image_I new;
  selfcal ← getattr "selfcal";
  l ← (if truthy selfcal
       then selfcal_rounds res reg noise (Locals imgr' term None)
       else mret (Locals imgr' term None));
  last ← ext "out_last" [imgr l];
  im_out ← ext "copy" [last];
  setattr "im_out" im_out;;
  match caltab l with
  | Some c => setattr "caltab" c
  | None => raise (UnboundLocalError "caltab")
  end.

(** ** output_results *)

(** [os.path.join(self.outpath, '%s<suffix>' % (self.outfile))] *)
Definition out_path (suffix : string) : M string :=
  outpath ← getattr "outpath";
  outfile ← getattr "outfile";
  name ← lift (py_str outfile);
  dir ← lift (as_str outpath);
  mret (path_join dir (name +:+ suffix)).

Definition output_results : M unit :=
  im_out ← getattr "im_out";
  obs_orig ← getattr "obs_orig";
  cut ← getattr "uv_zblcut";
  im_addcmp ← ext "add_zblterm" [im_out; obs_orig; cut; kw [("debias", VBool true)]];
  setattr "im_addcmp" im_addcmp;;
  obs_orig ← getattr "obs_orig";
  im_addcmp ← getattr "im_addcmp";
  ttype ← getattr "ttype";
  obs_sc_addcmp ← ext "selfcal" [obs_orig; im_addcmp; VStr "both"; ttype; kw []];
  setattr "obs_sc_addcmp" obs_sc_addcmp;;
  taper ← getattr "reverse_taper_uas";
  tapered ← lift (gt_zero taper);
  (if tapered : bool
   then im_out ← getattr "im_out";
        taper ← getattr "reverse_taper_uas";
        im_out ← ext "blur_circ" [im_out; taper];
        setattr "im_out" im_out
   else mret ());;
  outfits ← out_path ".fits";
  im_out ← getattr "im_out";
  ext_write "save_fits" [im_out; VStr outfits] outfits;;
  attrs ← get_self;
  (if match attrs !! "save_caltab" with Some x => eq_True x | None => false end
   then outcal ← out_path "/";
        caltab ← getattr "caltab";
        obs_sc_init ← getattr "obs_sc_init";
        ext_write "save_caltable" [caltab; obs_sc_init; VStr outcal] outcal
   else mret ());;
  save_uvfits ← getattr "save_uvfits";
  (if truthy save_uvfits
   then outuvfits ← out_path ".uvfits";
        obs_sc_addcmp ← getattr "obs_sc_addcmp";
        ext_write "save_uvfits" [obs_sc_addcmp; VStr outuvfits] outuvfits
   else mret ());;
  save_pdf ← getattr "save_pdf";
  (if truthy save_pdf
   then outpdf ← out_path ".pdf";
        im_out ← getattr "im_out";
        ext_write "display"
          [im_out; kw [("cbar_unit", VList [VStr "Tb"]); ("label_type", VStr "scale");
                       ("export_pdf", VStr outpdf)]] outpdf
   else mret ());;
  save_imgsums ← getattr "save_imgsums";
  (if truthy save_imgsums
   then _ ← ext "plt.close" [VStr "all"];
        outimgsum ← out_path "_imgsum.pdf";
        im_addcmp ← getattr "im_addcmp";
        obs_sc_addcmp ← getattr "obs_sc_addcmp";
        obs_orig ← getattr "obs_orig";
        cut ← getattr "uv_zblcut";
        ext_write "imgsum"
          [im_addcmp; obs_sc_addcmp; obs_orig; VStr outimgsum;
           kw [("cp_uv_min", cut); ("processes", VInt (-1))]] outimgsum
   else mret ()).

(** ** save_statistics *)

(** [obs.chisq(self.im_addcmp, dtype=..., ttype=self.ttype, ...,
    cp_uv_min=self.uv_zblcut)]; [opts] are the literal keyword arguments. *)
Definition chisq (obs : value) (dtype : string) (opts : list (string * value)) : M value :=
  im_addcmp ← getattr "im_addcmp";
  ttype ← getattr "ttype";
  cut ← getattr "uv_zblcut";
  ext "chisq" [obs; im_addcmp; VStr dtype; ttype; kw opts; cut].

Definition cphase_opts : list (string * value) :=
  [("systematic_noise", VFloat (fofZ 0)); ("systematic_cphase_noise", VInt 0);
   ("maxset", VBool false)].

Definition snr_opts : list (string * value) :=
  [("systematic_noise", VFloat (fofZ 0)); ("snrcut", VFloat (fofZ 1));
   ("maxset", VBool false)].

Definition save_statistics : M unit :=
  i ← getattr "i";
  let stats := <["i" := VList [i]]> (∅ : gmap string value) in
  outstats ← out_path "_stats.csv";
  truth ← getattr "ground_truth_img";
  none ← lift (py_eq truth (VStr "None"));
  stats ← (if none : bool then mret stats
           else truth ← getattr "ground_truth_img";
                gt_im ← ext "load_fits" [truth];
                let fov_ := fmul (fofZ 200) RADPERUAS in
                let psize_ := fdiv fov_ (fofZ 256) in
                im_addcmp ← getattr "im_addcmp";
                nxcorr ← ext "compare_images"
                  [gt_im; im_addcmp;
                   kw [("metric", VStr "nxcorr"); ("target_fov", VFloat fov_);
                       ("psize", VFloat psize_)]];
                mret (<["nxcorr" := VList [nxcorr]]> stats));
  obs_ref ← getattr "obs_orig";
  chi2_cp_ref ← chisq obs_ref "cphase" cphase_opts;
  chi2_lc_ref ← chisq obs_ref "logcamp" snr_opts;
  chi2_vis_ref ← chisq obs_ref "vis" snr_opts;
  let stats := <["chi2_cp_ref" := VList [chi2_cp_ref]]> stats in
  let stats := <["chi2_lc_ref" := VList [chi2_lc_ref]]> stats in
  let stats := <["chi2_vis_ref" := VList [chi2_vis_ref]]> stats in
  obs_sub ← getattr "obs_sc_addcmp";
  chi2_vis_sub ← chisq obs_sub "vis" snr_opts;
  let stats := <["chi2_vis_sub" := VList [chi2_vis_sub]]> stats in
  obs_sc_init ← getattr "obs_sc_init";
  im_addcmp ← getattr "im_addcmp";
  ttype ← getattr "ttype";
  obs_sys ← ext "selfcal" [obs_sc_init; im_addcmp; VStr "both"; ttype; kw []];
  setattr "obs_sc_addcmp_sys" obs_sys;;
  obs_sys ← getattr "obs_sc_addcmp_sys";
  chi2_cp_sys ← chisq obs_sys "cphase" cphase_opts;
  chi2_lc_sys ← chisq obs_sys "logcamp" snr_opts;
  chi2_vis_sys ← chisq obs_sys "vis" snr_opts;
  let stats := <["chi2_cp_sys" := VList [chi2_cp_sys]]> stats in
  let stats := <["chi2_lc_sys" := VList [chi2_lc_sys]]> stats in
  let stats := <["chi2_vis_sys" := VList [chi2_vis_sys]]> stats in
  df ← ext "DataFrame.from_dict" [VMap stats];
  ext_write "to_csv" [df; VStr outstats] outstats.

(** ** save_params *)

Definition save_params : M unit :=
  fov ← getattr "fov";
  paramset ← getattr "paramset";
  setitem paramset "fov" fov;;
  zbl_tot ← getattr "zbl_tot";
  paramset ← getattr "paramset";
  setitem paramset "zbl_tot" zbl_tot;;
  paramset ← getattr "paramset";
  row ← deref paramset;
  df ← ext "DataFrame.from_dict" [VList [VMap row]];
  outparams ← out_path "_params.csv";
  ext_write "to_csv" [df; VStr outparams] outparams.

(** ** run *)

Definition run : M unit :=
  outcsv ← out_path "_params.csv";
  done ← path_exists outcsv;
  if done : bool then mret ()
  else
    load_data;;
    preimcal;;
    init_img;;
    make_img;;
    output_results;;
    save_params;;
    save_stats ← getattr "save_stats";
    if truthy save_stats then save_statistics else mret ().

(** ** run_pset *)

Definition run_pset (pset : nat) (system_kwargs : value)
    (params_fixed : gmap string value) : M unit :=
  outpath ← lift (match params_fixed !! "outpath" with
                  | Some x => inr x
                  | None => inl (KeyError "outpath")
                  end);
  _ ← ext "makedirs" [outpath; kw [("exist_ok", VBool true)]];
  init pset params_fixed;;
  run.

(** ** create_survey_psets *)

(** Modelled from the spec: [paramsurvey.params.product] is a function of
    the external paramsurvey package; by section 4.9 it builds the
    cartesian product of every swept parameter's value list, each
    combination becoming one row. *)
Fixpoint product (params : list (string * list value)) : list (gmap string value) :=
  match params with
  | [] => [∅]
  | (k, xs) :: rest => x ← xs; row ← product rest; [<[k := x]> row]
  end.

(** [psets['i'] = np.array(range(len(psets)))] *)
Definition set_index (psets : list (gmap string value)) : list (gmap string value) :=
  imap (λ j row, <["i" := VInt (Z.of_nat j)]> row) psets.

Definition create_survey_psets
    (zbl sys_noise avg_time prior_fwhm sc_phase xdw_phase sc_ap xdw_ap amp cphase
     logcamp simple l1 tv tv2 flux epsilon_tv : list value)
  : list (gmap string value) :=
  let params :=
    [("zbl", zbl); ("sys_noise", sys_noise); ("avg_time", avg_time);
     ("prior_fwhm", prior_fwhm); ("sc_phase", sc_phase); ("xdw_phase", xdw_phase);
     ("sc_ap", sc_ap); ("xdw_ap", xdw_ap); ("amp", amp); ("cphase", cphase);
     ("logcamp", logcamp); ("simple", simple); ("l1", l1); ("tv", tv); ("tv2", tv2);
     ("flux", flux); ("epsilon_tv", epsilon_tv)] in
  let psets := product params in
  set_index psets.

(** ** create_params_fixed

    The dict of the keyword arguments: [given] holds the arguments the
    caller passes, the rest take the defaults of the signature. *)
Definition create_params_fixed (infile outfile_base outpath : string)
    (given : gmap string value) : gmap string value :=
  let tenth := VFloat (flit 1 (-1)) in
  given ∪
  list_to_map
    [("infile", VStr infile); ("outfile_base", VStr outfile_base);
     ("outpath", VStr outpath); ("ground_truth_img", VStr "None");
     ("save_imgsums", VBool false); ("save_uvfits", VBool true);
     ("save_pdf", VBool false); ("save_stats", VBool true);
     ("save_caltab", VBool true); ("nproc", VInt 1);
     ("backend", VStr "multiprocessing"); ("ttype", VStr "nfft");
     ("selfcal", VBool true);
     ("gaintol", VList [VFloat (flit 2 (-2)); VFloat (flit 2 (-1))]);
     ("niter_static", VInt 3); ("blurfrac", VInt 1); ("maxit", VInt 100);
     ("stop", VFloat (flit 1 (-4))); ("fov", VInt 128); ("npixels", VInt 64);
     ("reverse_taper_uas", VInt 5); ("uv_zblcut", VFloat (flit 1 8));
     ("SEFD_error_budget",
      kw [("AA", tenth); ("AX", tenth); ("GL", tenth); ("LM", tenth);
          ("MG", tenth); ("MM", tenth); ("PV", tenth); ("SW", tenth)])].

(** The row [d] with its visibility and noise fields multiplied by [r],
    all other fields kept. *)
Definition scaled (r : F) (d : datum) : datum :=
  Datum (time d) (tint d) (t1 d) (t2 d) (tau1 d) (tau2 d) (u d) (v d)
    (cmul (vis d) r) (cmul (qvis d) r) (cmul (uvis d) r) (cmul (vvis d) r)
    (fmul (sigma d) r) (fmul (qsigma d) r) (fmul (usigma d) r) (fmul (vsigma d) r).

(** The attributes that [__init__] reads while it runs. *)
Definition construction_keys : list string :=
  ["outfile_base"; "i"; "fov"; "reverse_taper_uas"; "prior_fwhm"].

(** The attributes that [__init__] sets besides the keys of its two
    mappings. *)
Definition derived_keys : list string := ["paramset"; "params_fixed"; "outfile"].

(** ** Reading the log *)

(** The attributes that every self-calibration round reads; an
    amplitude+phase round reads [gaintol] as well. *)
Definition round_attrs : list string :=
  ["initimg"; "zbl"; "maxit"; "ttype"; "uv_zblcut"; "stop"; "niter_static";
   "blurfrac"; "obs_sc"; "obs_sc_init"].

Definition ready (s : state) : Prop := ∀ k, k ∈ round_attrs → is_Some (self s !! k).

(** Every weight of a data-term dict is a number. *)
Definition weights (term : gmap string value) : Prop :=
  map_Forall (λ _ w, numeric w) term.

(** [s'] differs from [s] only in the attribute [obs_sc] and in the log. *)
Definition steps_to (s s' : state) : Prop :=
  heap s' = heap s ∧ files s' = files s
  ∧ is_Some (self s' !! "obs_sc")
  ∧ ∀ k, k ≠ "obs_sc" → self s' !! k = self s !! k.

(** The [method] of a [selfcal] call. *)
Definition selfcal_method (e : event) : option string :=
  if String.eqb e.1 "selfcal"
  then match e.2 with
       | _ :: _ :: VStr m :: _ => Some m
       | _ => None
       end
  else None.

(** The [data_term] handed to an [Imager]. *)
Definition imager_terms (e : event) : option (gmap string value) :=
  if String.eqb e.1 "Imager"
  then match e.2 with
       | _ :: _ :: _ :: _ :: VMap t :: _ => Some t
       | _ => None
       end
  else None.

(** Whether an attribute is set, and whether a computation returned. *)
Definition present {A} (o : option A) : bool :=
  match o with
  | Some _ => true
  | None => false
  end.

Definition returned {A} (r : res A) : bool :=
  match r with
  | inr _ => true
  | inl _ => false
  end.

(** The names of the calls, in order. *)
Definition names (l : list event) : list string := (λ e : event, e.1) <$> l.

(** The data terms handed to the imagers of [n] successive rounds that each
    apply [b] to the weights before imaging. *)
Fixpoint amp_terms (b : gmap string value → gmap string value)
    (term : gmap string value) (n : nat) : list (gmap string value) :=
  match n with
  | O => []
  | S n' => b term :: amp_terms b (b term) n'
  end.

(** A weight multiplied by the factor [x], and a data-term dict with every
    weight multiplied by [x]. *)
Definition times (x w : value) : value :=
  match py_mul w x with
  | inr y => y
  | inl _ => w
  end.

Definition boosted (x : value) (term : gmap string value) : gmap string value :=
  times x <$> term.

Definition selfcal_calls (l : list event) : list string := omap selfcal_method l.

Definition imager_calls (l : list event) : list (gmap string value) := omap imager_terms l.

(** ** Predicates on runs *)

(** [wp m s Q]: running [m] from [s] ends in a result and a state that
    satisfy [Q].  Every program of the embedding is a total function, so
    this describes the one outcome it has. *)
Definition wp {A} (m : M A) (s : state) (Q : res A → state → Prop) : Prop :=
  Q (m s).1 (m s).2.

(** The object that a successful construction leaves. *)
Definition constructed (l : nat) (fixed row : gmap string value)
    (outfile : string) (fov taper fwhm : value) : gmap string value :=
  <["prior_fwhm" := fwhm]> (<["reverse_taper_uas" := taper]> (<["fov" := fov]>
    (<["outfile" := VStr outfile]> (<["params_fixed" := VMap fixed]>
      (<["paramset" := VRef l]> (fixed ∪ row)))))).

(** [s'] has the heap, the [fov] and the [paramset] of [s], and a log that
    extends the log of [s]. *)
Definition kept (s s' : state) : Prop :=
  heap s' = heap s
  ∧ self s' !! "fov" = self s !! "fov"
  ∧ self s' !! "paramset" = self s !! "paramset"
  ∧ ∃ rest, log s' = log s ++ rest.

Definition keeps {A} (m : M A) : Prop := ∀ s, wp m s (λ _ s', kept s s').

End Survey.

#[global] Arguments wp : simpl never.

(** ** A concrete instance: IEEE binary64

    Python floats are binary64 values, which Rocq has as primitive floats.
    A complex128 is a pair of them. *)

Module Binary64.

Definition of_Z (z : Z) : float :=
  if z <? 0 then PrimFloat.opp (PrimFloat.of_uint63 (Uint63.of_Z (- z)))
  else PrimFloat.of_uint63 (Uint63.of_Z z).

Definition literal (m e : Z) : float :=
  if e <? 0 then PrimFloat.div (of_Z m) (of_Z (10 ^ (- e)))
  else PrimFloat.mul (of_Z m) (of_Z (10 ^ e)).

Definition scale (z : float * float) (r : float) : float * float :=
  (PrimFloat.mul z.1 r, PrimFloat.mul z.2 r).

(** [DEGREE / 3600 * 1e-6] with [DEGREE = pi / 180]. *)
Definition radperuas : float :=
  PrimFloat.mul
    (PrimFloat.div (PrimFloat.div 0x1.921fb54442d18p+1%float (of_Z 180)) (of_Z 3600))
    (literal 1 (-6)).

End Binary64.

Lemma SFcompare_Lt_swap (x y : spec_float) :
  SFcompare x y = Some Lt → SFcompare y x = Some Gt.
Proof.
  destruct x as [sx|sx| |sx mx ex], y as [sy|sy| |sy my ey]; simpl;
    repeat match goal with
           | b : bool |- _ => destruct b; simpl
           end; try congruence.
  all: change (Pos.compare_cont Eq mx my) with (Pos.compare mx my);
    change (Pos.compare_cont Eq my mx) with (Pos.compare my mx);
    rewrite (Z.compare_antisym ey ex), (Pos.compare_antisym my mx);
    destruct (ey ?= ex)%Z; simpl; try congruence;
    destruct (my ?= mx)%positive; simpl; congruence.
Qed.

Lemma float_ltb_leb (x y : float) : PrimFloat.ltb x y = true → PrimFloat.leb y x = false.
Proof.
  rewrite ltb_spec, leb_spec. unfold SFltb, SFleb.
  destruct (SFcompare (Prim2SF x) (Prim2SF y)) as [[]|] eqn:E; try discriminate.
  intros _. by rewrite (SFcompare_Lt_swap _ _ E).
Qed.

#[export] Instance binary64 : Numerics := {|
  F := float;
  C := float * float;
  fofZ := Binary64.of_Z;
  flit := Binary64.literal;
  fadd := PrimFloat.add;
  fsub := PrimFloat.sub;
  fmul := PrimFloat.mul;
  fdiv := PrimFloat.div;
  fsq := λ x, PrimFloat.mul x x;
  fsqrt := PrimFloat.sqrt;
  feqb := PrimFloat.eqb;
  fltb := PrimFloat.ltb;
  fgeb := λ x y, PrimFloat.leb y x;
  cmul := Binary64.scale;
  RADPERUAS := Binary64.radperuas;
  fltb_fgeb := float_ltb_leb
|}.

(** ** A concrete library and survey

    A handler that answers every call, used to run the pipeline on
    explicit inputs.  Calls named in [broken] raise. *)

Module Demo.

#[local] Open Scope float_scope.

(** Two measurements: a short baseline (uv distance 5e7, inside the
    default cut of 1e8) and a long one (uv distance 5e9). *)
Definition short_baseline : datum :=
  Datum 0 10 "AA" "AX" 0 0 3e7 4e7 (2, 1) (0, 0) (0, 0) (0, 0) 0.5 0.5 0.5 0.5.

Definition long_baseline : datum :=
  Datum 0 10 "AA" "LM" 0 0 3e9 4e9 (1, 0.5) (0, 0) (0, 0) (0, 0) 0.25 0.25 0.25 0.25.

Definition table : list datum := [short_baseline; long_baseline].

Definition receiver_calls : list string :=
  ["add_scans"; "avg_coherent"; "flag_tarr"; "Obsdata"; "copy"; "reorder_tarr_snr";
   "reverse_taper"; "add_fractional_noise"; "make_image_I"; "add_gauss"; "blur_circ";
   "add_zblterm"].

Definition answer (broken : list string) (measured : float)
    (h : list event) (name : string) (args : list value) : string + value :=
  if bool_decide (name ∈ broken) then inl "injected failure"
  else if bool_decide (name = "load_uvfits") then inr (VObs table 0)
  else if bool_decide (name = "median") then inr (VFloat measured)
  else if bool_decide (name ∈ receiver_calls) then inr (default VNone (head args))
  else if bool_decide (name = "selfcal") then
    match args with
    | obs :: _ :: VStr "both" :: _ :: VMap opts :: _ =>
        if bool_decide (is_Some (opts !! "caltable")) then inr (VObj 7) else inr obs
    | _ => inr (default VNone (head args))
    end
  else if bool_decide (name = "applycal") then inr (default VNone (args !! 1%nat))
  else if bool_decide (name = "res") then inr (VFloat (flit 1 (-10)))
  else if bool_decide (name = "chisq") then inr (VFloat 1)
  else inr (VObj (length h)).

(** The default survey of [create_survey_psets]: one row. *)
Definition psets : list (gmap string value) :=
  create_survey_psets
    [VFloat (flit 6 (-1))] [VFloat (flit 2 (-2))] [VStr "scan"] [VInt 40] [VInt 2]
    [VInt 10] [VInt 2] [VInt 1] [VFloat (flit 2 (-1))] [VInt 1] [VInt 1] [VInt 1]
    [VInt 1] [VInt 1] [VInt 1] [VInt 1] [VFloat (flit 1 (-10))].

Definition row0 : gmap string value := default ∅ (head psets).

Definition params_fixed : gmap string value :=
  create_params_fixed "obs.uvfits" "survey" "out" ∅.

(** The same row in a survey that also sweeps the field of view. *)
Definition row_fov64 : gmap string value := <["fov" := VInt 64]> row0.

(** Fixed parameters without a field of view. *)
Definition params_no_fov : gmap string value := delete "fov" params_fixed.

(** A fresh process: the row is the dict at address 0, no output yet. *)
Definition start (row : gmap string value) : state :=
  State ∅ {[ 0%nat := row ]} ∅ [].

(** The library in which nothing fails and the measured total flux is
    0.75 Jy. *)
Definition lib : list event → string → list value → string + value :=
  answer [] 0.75.

(** The state in which [make_img] starts: the object is constructed and
    the stages before imaging have run. *)
Definition before_imaging (fixed row : gmap string value) : state :=
  ((init 0 fixed;; load_data lib;; preimcal lib;; init_img lib) (start row)).2.

(** Rows for two phase-only rounds and no amplitude+phase round, and for no
    phase-only round and two amplitude+phase rounds with a boost of 2. *)
Definition row_phase_only : gmap string value := <["sc_ap" := VInt 0]> row0.

Definition row_amp_only : gmap string value :=
  <["xdw_ap" := VInt 2]> (<["sc_phase" := VInt 0]> row0).

Definition s_phase_only : state := before_imaging params_fixed row_phase_only.

Definition s_amp_only : state := before_imaging params_fixed row_amp_only.

(** The data terms, regularizers and noise floors that [make_img] selects
    in a state. *)
Definition terms_of (f : gmap string value → res (gmap string value)) (s : state)
  : gmap string value :=
  match f (self s) with
  | inr t => t
  | inl _ => ∅
  end.

(** A library that cannot load the ground-truth image, and fixed
    parameters that name one. *)
Definition lib_no_truth : list event → string → list value → string + value :=
  answer ["load_fits"] 0.75.

Definition params_truth : gmap string value :=
  <["ground_truth_img" := VStr "truth.fits"]> params_fixed.

(** Fixed parameters with self-calibration switched off. *)
Definition params_static : gmap string value :=
  <["selfcal" := VBool false]> params_fixed.

Definition s_static : state := before_imaging params_static row0.

(** Attributes that ask for the diagnostic closure terms while the
    standard log-closure-amplitude weight is zero. *)
Definition attrs_diag : gmap string value :=
  list_to_map
    [("amp", VFloat 0.25); ("diag_closure", VBool true);
     ("logcamp_diag", VFloat 1); ("cphase_diag", VFloat 2);
     ("logcamp", VFloat 0); ("cphase", VFloat 5)].

End Demo.

(** * Properties *)

Section Table.
Context `{Numerics}.

Lemma length_bind_const {A B} (f : A → list B) (n : nat) (xs : list A) :
  (∀ x, length (f x) = n) → length (xs ≫= f) = (length xs * n)%nat.
Proof.
  intros Hf. induction xs as [|x xs IH]; [done|].
  rewrite bind_cons, length_app, Hf, IH. simpl. lia.
Qed.

(** The number of rows of a product is the product of the lengths. *)
Lemma length_product (params : list (string * list value)) :
  length (product params) = foldr (λ p n, (length p.2 * n)%nat) 1%nat params.
Proof.
  induction params as [|[k xs] rest IH]; [done|].
  simpl. apply length_bind_const. intros x.
  rewrite (length_bind_const _ 1%nat); [lia|done].
Qed.

Lemma length_set_index (psets : list (gmap string value)) :
  length (set_index psets) = length psets.
Proof. apply length_imap. Qed.

(** The index column reads 0, 1, ... in row order. *)
Lemma set_index_column (psets : list (gmap string value)) :
  (λ row : gmap string value, row !! "i") <$> set_index psets
  = (λ j, Some (VInt (Z.of_nat j))) <$> seq 0 (length psets).
Proof.
  apply list_eq. intros j. unfold set_index.
  rewrite !list_lookup_fmap, list_lookup_imap.
  destruct (psets !! j) as [row|] eqn:E; simpl.
  - rewrite lookup_seq_lt by (by eapply lookup_lt_Some). simpl.
    by rewrite lookup_insert_eq.
  - by rewrite lookup_seq_ge by (by apply lookup_ge_None).
Qed.

(** C9. The table built by [create_survey_psets] has as many rows as the
    product of the lengths of the seventeen value lists, and its index
    column [i] is 0, 1, ..., N-1 in row order: contiguous from 0, hence
    without repetition. *)
Theorem create_survey_psets_rows
    (zbl sys_noise avg_time prior_fwhm sc_phase xdw_phase sc_ap xdw_ap amp cphase
     logcamp simple l1 tv tv2 flux epsilon_tv : list value) :
  let psets := create_survey_psets zbl sys_noise avg_time prior_fwhm sc_phase
                 xdw_phase sc_ap xdw_ap amp cphase logcamp simple l1 tv tv2 flux
                 epsilon_tv in
  let N := (length zbl * (length sys_noise * (length avg_time * (length prior_fwhm *
            (length sc_phase * (length xdw_phase * (length sc_ap * (length xdw_ap *
            (length amp * (length cphase * (length logcamp * (length simple *
            (length l1 * (length tv * (length tv2 * (length flux *
            length epsilon_tv))))))))))))))))%nat in
  length psets = N
  ∧ (λ row : gmap string value, row !! "i") <$> psets
    = (λ j, Some (VInt (Z.of_nat j))) <$> seq 0 N
  ∧ NoDup ((λ row : gmap string value, row !! "i") <$> psets).
Proof.
  intros psets N.
  assert (HN : length psets = N).
  { unfold psets, create_survey_psets. rewrite length_set_index, length_product.
    unfold N. simpl. lia. }
  assert (Hcol : (λ row : gmap string value, row !! "i") <$> psets
                 = (λ j, Some (VInt (Z.of_nat j))) <$> seq 0 N).
  { rewrite <- HN. unfold psets, create_survey_psets.
    rewrite set_index_column. by rewrite length_set_index. }
  split; [done|]. split; [done|].
  rewrite Hcol. apply NoDup_fmap_2; [|apply NoDup_seq].
  intros a b Hab. injection Hab. lia.
Qed.

End Table.

(** ** Pre-imaging calibration: the short-baseline rescaling *)

Section Rescale.
Context `{Numerics}.

Lemma mapE_total {A B} (f : A → res B) (g : A → B) (l : list A) :
  (∀ x, f x = inr (g x)) → mapE f l = inr (g <$> l).
Proof.
  intros Hf. induction l as [|x l IH]; [done|].
  simpl. rewrite Hf. simpl. rewrite IH. done.
Qed.

Lemma py_eq_measured (target : value) (t m : F) :
  as_float target = Some t → py_eq target (VFloat m) = inr (feqb t m).
Proof. destruct target; simpl; intros; simplify_eq; done. Qed.

Lemma py_div_measured (target : value) (t m : F) :
  as_float target = Some t → py_div target (VFloat m) = inr (fdiv t m).
Proof.
  destruct target; simpl; intros; simplify_eq; done.
Qed.

(** One trip: a row at or beyond the cut is skipped, any other row has the
    eight fields multiplied by target/measured. *)
Lemma rescale_row_eq (attrs : gmap string value) (d : datum)
    (target cut : value) (t m c : F) :
  attrs !! "zbl" = Some target → as_float target = Some t →
  attrs !! "zbl_tot" = Some (VFloat m) →
  attrs !! "uv_zblcut" = Some cut → as_float cut = Some c →
  rescale_row attrs d
  = inr (if fgeb (uvdist d) c then d else scaled (fdiv t m) d).
Proof.
  intros Hz Ht Hm Hc Hcut. unfold rescale_row, attr, ge_value.
  rewrite Hc. simpl. rewrite Hcut. simpl.
  destruct (fgeb (uvdist d) c); [done|].
  unfold fields. simpl. unfold attr. rewrite Hz, Hm. simpl.
  rewrite (py_div_measured _ _ _ Ht). simpl.
  destruct d. reflexivity.
Qed.

(** C5. In [preimcal], when the target compact flux [zbl] equals the
    measured total flux [zbl_tot], the visibility table is left as it is;
    when they differ, every row whose uv distance is strictly below
    [uv_zblcut] has its four visibility and four noise fields multiplied
    by [zbl / zbl_tot], and every row at or beyond the cut is unchanged. *)
Theorem rescale_short_baselines_spec (attrs : gmap string value) (data : list datum)
    (target : value) (t m : F) :
  attrs !! "zbl" = Some target → as_float target = Some t →
  attrs !! "zbl_tot" = Some (VFloat m) →
  (feqb t m = true → rescale_short_baselines attrs data = inr data)
  ∧ (feqb t m = false →
     ∀ (cut : value) (c : F),
       attrs !! "uv_zblcut" = Some cut → as_float cut = Some c →
       ∃ data',
         rescale_short_baselines attrs data = inr data'
         ∧ length data' = length data
         ∧ ∀ (j : nat) (d : datum), data !! j = Some d →
             (fltb (uvdist d) c = true → data' !! j = Some (scaled (fdiv t m) d))
             ∧ (fgeb (uvdist d) c = true → data' !! j = Some d)).
Proof.
  intros Hz Ht Hm.
  assert (Hrs : rescale_short_baselines attrs data
            = (if feqb t m then inr data else mapE (rescale_row attrs) data)).
  { unfold rescale_short_baselines, attr. rewrite Hz, Hm. simpl.
    rewrite (py_eq_measured _ _ _ Ht). done. }
  split.
  - intros Heq. by rewrite Hrs, Heq.
  - intros Hne cut c Hc Hcut. rewrite Hrs, Hne.
    rewrite (mapE_total _ (λ d, if fgeb (uvdist d) c then d else scaled (fdiv t m) d))
      by (intros d; by eapply rescale_row_eq).
    eexists. split; [done|]. split; [by rewrite length_fmap|].
    intros j d Hj. rewrite list_lookup_fmap, Hj. simpl. split.
    + intros Hlt. by rewrite (fltb_fgeb _ _ Hlt).
    + intros Hge. by rewrite Hge.
Qed.

End Rescale.

(** The theorem at the demonstration table: target 0.5 against a measured
    0.75, default cut 1e8. *)
Lemma rescale_short_baselines_spec_witness :
  let attrs : gmap string value :=
    <["zbl" := VFloat 0.5%float]> (<["zbl_tot" := VFloat 0.75%float]>
      (<["uv_zblcut" := VFloat (flit 1 8)]> ∅)) in
  (feqb 0.5%float 0.75%float = true →
   rescale_short_baselines attrs Demo.table = inr Demo.table)
  ∧ (feqb 0.5%float 0.75%float = false →
     ∀ (cut : value) (c : F),
       attrs !! "uv_zblcut" = Some cut → as_float cut = Some c →
       ∃ data',
         rescale_short_baselines attrs Demo.table = inr data'
         ∧ length data' = length Demo.table
         ∧ ∀ (j : nat) (d : datum), Demo.table !! j = Some d →
             (fltb (uvdist d) c = true
              → data' !! j = Some (scaled (fdiv 0.5%float 0.75%float) d))
             ∧ (fgeb (uvdist d) c = true → data' !! j = Some d)).
Proof.
  intros attrs.
  apply (rescale_short_baselines_spec attrs Demo.table (@VFloat binary64 0.5%float));
    reflexivity.
Defined.

(** ** Rules for [wp], one per operation of the run monad *)

Section Logic.
Context `{Numerics}.
Variable lib : list event → string → list value → string + value.

Lemma wp_elim {A} (m : M A) s Q r s' : wp m s Q → m s = (r, s') → Q r s'.
Proof. unfold wp. intros HQ Hm. by rewrite Hm in HQ. Qed.

Lemma wp_intro {A} (m : M A) s (Q : res A → state → Prop) :
  (∀ r s', m s = (r, s') → Q r s') → wp m s Q.
Proof. unfold wp. intros HQ. apply HQ. apply surjective_pairing. Qed.

Lemma wp_mono {A} (m : M A) s (Q Q' : res A → state → Prop) :
  wp m s Q → (∀ r s', Q r s' → Q' r s') → wp m s Q'.
Proof. unfold wp. auto. Qed.

Lemma wp_bind {A B} (m : M A) (f : A → M B) s Q :
  wp m s (λ r s1, match r with
                  | inl e => Q (inl e) s1
                  | inr a => wp (f a) s1 Q
                  end) →
  wp (m ≫= f) s Q.
Proof. unfold wp, mbind, M_bind. by destruct (m s) as [[e|a] s1]. Qed.

Lemma wp_ret {A} (a : A) s Q : Q (inr a) s → wp (mret a) s Q.
Proof. done. Qed.

Lemma wp_raise {A} (e : exn) s (Q : res A → state → Prop) :
  Q (inl e) s → wp (raise e) s Q.
Proof. done. Qed.

Lemma wp_lift {A} (r : res A) s Q : Q r s → wp (lift r) s Q.
Proof. done. Qed.

Lemma wp_get_self s Q : Q (inr (self s)) s → wp get_self s Q.
Proof. done. Qed.

Lemma wp_getattr (k : string) s Q :
  match self s !! k with
  | Some x => Q (inr x) s
  | None => Q (inl (AttributeError k)) s
  end →
  wp (getattr k) s Q.
Proof. unfold wp, getattr, attr. simpl. by destruct (self s !! k). Qed.

Lemma wp_setattr (k : string) (x : value) s Q :
  Q (inr ()) (State (<[k := x]> (self s)) (heap s) (files s) (log s)) →
  wp (setattr k x) s Q.
Proof. done. Qed.

Lemma wp_add_file (p : string) s Q :
  Q (inr ()) (State (self s) (heap s) ({[p]} ∪ files s) (log s)) →
  wp (add_file p) s Q.
Proof. done. Qed.

Lemma wp_ext (name : string) (args : list value) s Q :
  (let s' := State (self s) (heap s) (files s) (log s ++ [(name, args)]) in
   match lib (log s) name args with
   | inl msg => Q (inl (ExtError name msg)) s'
   | inr x => Q (inr x) s'
   end) →
  wp (ext lib name args) s Q.
Proof. unfold wp, ext. simpl. by destruct (lib (log s) name args). Qed.

Lemma wp_if {A} (b : bool) (m1 m2 : M A) s Q :
  (if b then wp m1 s Q else wp m2 s Q) → wp (if b then m1 else m2) s Q.
Proof. by destruct b. Qed.

End Logic.

Ltac wp_step :=
  lazymatch goal with
  | |- wp (mbind _ _) _ _ => apply wp_bind
  | |- wp (mret _) _ _ => apply wp_ret
  | |- wp (raise _) _ _ => apply wp_raise
  | |- wp (lift _) _ _ => apply wp_lift
  | |- wp get_self _ _ => apply wp_get_self
  | |- wp (getattr _) _ _ => apply wp_getattr; simpl self
  | |- wp (setattr _ _) _ _ => apply wp_setattr
  | |- wp (add_file _) _ _ => apply wp_add_file
  | |- wp (ext _ _ _) _ _ => apply wp_ext; simpl
  | |- wp (if _ then _ else _) _ _ => apply wp_if
  end.

(** ** Construction *)

Section Construction.
Context `{Numerics}.

Lemma setattrs_union (d b : gmap string value) :
  map_fold (λ k x acc, <[k := x]> acc) b d = d ∪ b.
Proof.
  apply (map_fold_weak_ind (λ r m, r = m ∪ b)).
  - by rewrite (left_id_L ∅ (∪)).
  - intros i x m r _ ->. by rewrite insert_union_l.
Qed.

(** The attributes once both [setattr] loops have run: the fixed
    parameters over the row. *)
Lemma resolved_attrs (fixed row : gmap string value) :
  (if bool_decide (0 < size fixed)%nat
   then map_fold (λ k x acc, <[k := x]> acc)
          (map_fold (λ k x acc, <[k := x]> acc) ∅ row) fixed
   else map_fold (λ k x acc, <[k := x]> acc) ∅ row)
  = fixed ∪ row.
Proof.
  rewrite !setattrs_union, (right_id_L ∅ (∪)).
  case_bool_decide as Hsz; [done|].
  assert (fixed = ∅) as -> by (apply map_size_empty_iff; lia).
  by rewrite (left_id_L ∅ (∪)).
Qed.



Lemma py_str_error (x : value) (e : exn) : py_str x = inl e → e = Unmodelled.
Proof. destruct x; simpl; congruence. Qed.

Lemma fmt_07i_error (x : value) (e : exn) :
  fmt_07i x = inl e → e = TypeError ∨ e = Unmodelled.
Proof. unfold fmt_07i. destruct x; simpl; intros; simplify_eq; auto. Qed.

Lemma py_mul_error (x y : value) (e : exn) : py_mul x y = inl e → e = Unmodelled.
Proof. unfold py_mul. repeat case_match; congruence. Qed.

Lemma py_mul_float (x : value) (a c : F) :
  as_float x = Some a → py_mul x (VFloat c) = inr (VFloat (fmul a c)).
Proof. destruct x; simpl; intros; simplify_eq; done. Qed.


Ltac attr_case E :=
  rewrite ?lookup_insert_ne by done;
  lazymatch goal with
  | |- match ?m !! ?k with _ => _ end => destruct (m !! k) eqn:E
  end.

Ltac lift_case E :=
  lazymatch goal with
  | |- match ?r with inl _ => _ | inr _ => _ end => destruct r eqn:E
  end.

(** Every outcome of [__init__]: it touches neither the heap, the files
    nor the log; it returns the object above, or raises for a key it reads
    and does not find, or for a value it cannot format or multiply. *)
Lemma init_outcome (l : nat) (fixed row : gmap string value) (s0 : state) :
  heap s0 !! l = Some row →
  wp (init l fixed) s0 (λ r s',
     heap s' = heap s0 ∧ files s' = files s0 ∧ log s' = log s0 ∧
     match r with
     | inr _ =>
        ∃ base i x t p sbase si x' t' p',
         (fixed ∪ row) !! "outfile_base" = Some base ∧ py_str base = inr sbase ∧
         (fixed ∪ row) !! "i" = Some i ∧ fmt_07i i = inr si ∧
         (fixed ∪ row) !! "fov" = Some x ∧ py_mul x (VFloat RADPERUAS) = inr x' ∧
         (fixed ∪ row) !! "reverse_taper_uas" = Some t ∧
         py_mul t (VFloat RADPERUAS) = inr t' ∧
         (fixed ∪ row) !! "prior_fwhm" = Some p ∧ py_mul p (VFloat RADPERUAS) = inr p' ∧
         self s' = constructed l fixed row (sbase +:+ "_" +:+ si) x' t' p'
     | inl (AttributeError k) => k ∈ construction_keys ∧ (fixed ∪ row) !! k = None
     | inl e =>
        (e = TypeError ∨ e = Unmodelled) ∧
        ((∃ base, (fixed ∪ row) !! "outfile_base" = Some base ∧ py_str base = inl e)
         ∨ (∃ i, (fixed ∪ row) !! "i" = Some i ∧ fmt_07i i = inl e)
         ∨ (∃ k x, k ∈ ["fov"; "reverse_taper_uas"; "prior_fwhm"]
                   ∧ (fixed ∪ row) !! k = Some x
                   ∧ py_mul x (VFloat RADPERUAS) = inl e))
     end).
Proof.
  intros Hrow. unfold init, to_radians, constructed.
  apply wp_bind. unfold wp at 1, deref. simpl. rewrite Hrow. simpl.
  apply wp_bind. unfold wp at 1, set_self. simpl.
  apply wp_bind. unfold wp at 1, setattrs. simpl.
  apply wp_bind.
  apply (wp_mono _ _
           (λ r s', r = inr () ∧ s' = State (fixed ∪ row) (heap s0) (files s0) (log s0))).
  { unfold wp. rewrite <- (resolved_attrs fixed row). case_bool_decide; done. }
  intros r s' [-> ->].
  do 2 (wp_step; wp_step).
  wp_step; wp_step. attr_case Ebase; [|by split_and!; [..|set_solver|]].
  wp_step; wp_step. attr_case Ei; [|by split_and!; [..|set_solver|]].
  wp_step; wp_step. lift_case Esb.
  { pose proof (py_str_error _ _ Esb) as ->. split_and!; eauto. }
  wp_step; wp_step. lift_case Esi.
  { split_and!; try done. destruct (fmt_07i_error _ _ Esi) as [-> | ->]; eauto 10. }
  wp_step; wp_step.
  wp_step. wp_step; wp_step. attr_case Efov; [|by split_and!; [..|set_solver|]].
  wp_step; wp_step. lift_case Emf.
  { pose proof (py_mul_error _ _ _ Emf) as ->. split_and!; try done; [by auto|].
    right; right. exists "fov". eexists. split_and!; [set_solver|done..]. }
  wp_step.
  wp_step. wp_step; wp_step. attr_case Ert; [|by split_and!; [..|set_solver|]].
  wp_step; wp_step. lift_case Emt.
  { pose proof (py_mul_error _ _ _ Emt) as ->. split_and!; try done; [by auto|].
    right; right. exists "reverse_taper_uas". eexists. split_and!; [set_solver|done..]. }
  wp_step.
  wp_step; wp_step. attr_case Epf; [|by split_and!; [..|set_solver|]].
  wp_step; wp_step. lift_case Emp.
  { pose proof (py_mul_error _ _ _ Emp) as ->. split_and!; try done; [by auto|].
    right; right. exists "prior_fwhm". eexists. split_and!; [set_solver|done..]. }
  wp_step. simpl. split_and!; try done.
  do 10 eexists. split_and!; done.
Qed.

End Construction.

Section ConstructionClaims.
Context `{Numerics}.

(** C7 (amended). When the attribute [fov] resolved from the two mappings
    (a fixed parameter taking precedence over the row) is the number X, and
    the other keys that [__init__] reads resolve to values it can use,
    construction succeeds and stores [fov] as exactly X times
    [RADPERUAS] (likewise the two other angular fields); it leaves the row
    as it was, and a second construction from the same row and fixed
    mapping yields the same attributes: the conversion is not applied to an
    already converted value. *)
Theorem init_converts_once (l : nat) (fixed row : gmap string value) (s : state)
    (base i x t p : value) (sbase si : string) (X T P : F) :
  heap s !! l = Some row →
  (fixed ∪ row) !! "outfile_base" = Some base → py_str base = inr sbase →
  (fixed ∪ row) !! "i" = Some i → fmt_07i i = inr si →
  (fixed ∪ row) !! "fov" = Some x → as_float x = Some X →
  (fixed ∪ row) !! "reverse_taper_uas" = Some t → as_float t = Some T →
  (fixed ∪ row) !! "prior_fwhm" = Some p → as_float p = Some P →
  ∃ s1, init l fixed s = (inr (), s1)
    ∧ self s1 !! "fov" = Some (VFloat (fmul X RADPERUAS))
    ∧ self s1 !! "reverse_taper_uas" = Some (VFloat (fmul T RADPERUAS))
    ∧ self s1 !! "prior_fwhm" = Some (VFloat (fmul P RADPERUAS))
    ∧ heap s1 = heap s
    ∧ ∃ s2, init l fixed s1 = (inr (), s2) ∧ self s2 = self s1.
Proof.
  intros Hrow Hb Hsb Hi Hsi Hx HX Ht HT Hp HP.
  assert (Hany : ∀ s0, heap s0 !! l = Some row →
            ∃ s1, init l fixed s0 = (inr (), s1)
              ∧ heap s1 = heap s0
              ∧ self s1 = constructed l fixed row (sbase +:+ "_" +:+ si)
                            (VFloat (fmul X RADPERUAS)) (VFloat (fmul T RADPERUAS))
                            (VFloat (fmul P RADPERUAS))).
  { intros s0 Hrow0. destruct (init l fixed s0) as [r s1] eqn:Einit.
    pose proof (wp_elim _ _ _ _ _ (init_outcome l fixed row s0 Hrow0) Einit)
      as (Hh & _ & _ & Hr).
    destruct r as [e|[]].
    - exfalso. destruct e; try (destruct Hr as [[? | ?] _]; discriminate).
      + destruct Hr as [Hk Hnone]. unfold construction_keys in Hk.
        repeat (apply elem_of_cons in Hk as [-> | Hk]; [congruence|]).
        by apply elem_of_nil in Hk.
      + destruct Hr as [_ [(b' & Hb' & He) | [(i' & Hi' & He) | (k & y & Hk & Hy & He)]]].
        * congruence.
        * congruence.
        * repeat (apply elem_of_cons in Hk as [-> | Hk];
                  [simplify_eq; erewrite py_mul_float in He by done; discriminate|]).
          by apply elem_of_nil in Hk.
      + destruct Hr as [_ [(b' & Hb' & He) | [(i' & Hi' & He) | (k & y & Hk & Hy & He)]]].
        * congruence.
        * congruence.
        * repeat (apply elem_of_cons in Hk as [-> | Hk];
                  [simplify_eq; erewrite py_mul_float in He by done; discriminate|]).
          by apply elem_of_nil in Hk.
    - destruct Hr as (b' & i' & x0 & t0 & p0 & sb' & si' & x' & t' & p' & Hb' & Hsb' & Hi'
                      & Hsi' & Hx' & Hmx & Ht' & Hmt & Hp' & Hmp & Hself).
      simplify_eq.
      erewrite py_mul_float in Hmx by done. erewrite py_mul_float in Hmt by done.
      erewrite py_mul_float in Hmp by done.
      rewrite Hsb in Hsb'. rewrite Hsi in Hsi'. simplify_eq.
      eexists. split_and!; done. }
  destruct (Hany s Hrow) as (s1 & Hinit & Hheap & Hself).
  eexists. split; [exact Hinit|].
  split_and!; [rewrite Hself; unfold constructed; by simplify_map_eq..|done|].
  destruct (Hany s1) as (s2 & Hinit2 & _ & Hself2); [by rewrite Hheap|].
  eexists. split; [exact Hinit2|]. by rewrite Hself2.
Qed.

(** C8 (amended). Construction performs no I/O: whatever its outcome, the
    heap, the files and the log of external calls are as before.  It
    raises a missing-attribute error during construction itself when one
    of the keys it reads ([outfile_base], [i], [fov], [reverse_taper_uas],
    [prior_fwhm]) is in neither mapping; its only other failures are on a
    value it cannot format or multiply.  Any other missing key does not
    fail construction and raises the missing-attribute error when a later
    stage reads that attribute. *)
Theorem init_failure_modes (l : nat) (fixed row : gmap string value)
    (s s' : state) (r : res ()) :
  heap s !! l = Some row →
  init l fixed s = (r, s') →
  (heap s' = heap s ∧ files s' = files s ∧ log s' = log s)
  ∧ (∀ k, k ∈ construction_keys → (fixed ∪ row) !! k = None → ∃ e, r = inl e)
  ∧ match r with
    | inr _ =>
        ∀ k, (fixed ∪ row) !! k = None → k ∉ derived_keys →
             getattr k s' = (inl (AttributeError k), s')
    | inl (AttributeError k) => k ∈ construction_keys ∧ (fixed ∪ row) !! k = None
    | inl e =>
        (e = TypeError ∨ e = Unmodelled) ∧
        ((∃ base, (fixed ∪ row) !! "outfile_base" = Some base ∧ py_str base = inl e)
         ∨ (∃ i, (fixed ∪ row) !! "i" = Some i ∧ fmt_07i i = inl e)
         ∨ (∃ k x, k ∈ ["fov"; "reverse_taper_uas"; "prior_fwhm"]
                   ∧ (fixed ∪ row) !! k = Some x
                   ∧ py_mul x (VFloat RADPERUAS) = inl e))
    end.
Proof.
  intros Hrow Hinit.
  pose proof (wp_elim _ _ _ _ _ (init_outcome l fixed row s Hrow) Hinit)
    as (Hh & Hf & Hl & Hr).
  split; [done|]. split.
  - intros k Hk Hnone. destruct r as [e|[]]; [by eexists|].
    exfalso.
      destruct Hr as (b' & i' & x0 & t0 & p0 & sb' & si' & x' & t' & p' & Hb' & Hsb' & Hi'
                      & Hsi' & Hx' & Hmx & Ht' & Hmt & Hp' & Hmp & Hself).
    unfold construction_keys in Hk.
    repeat (apply elem_of_cons in Hk as [-> | Hk]; [congruence|]).
    by apply elem_of_nil in Hk.
  - destruct r as [e|[]]; [exact Hr|].
    destruct Hr as (b' & i' & x0 & t0 & p0 & sb' & si' & x' & t' & p' & Hb' & Hsb' & Hi'
                    & Hsi' & Hx' & Hmx & Ht' & Hmt & Hp' & Hmp & Hself).
    intros k Hnone Hk. unfold getattr, attr. rewrite Hself. unfold constructed.
    unfold derived_keys in Hk.
    rewrite !lookup_insert_ne
      by (intros Hkk; subst k; first [congruence | apply Hk; repeat constructor]).
    by rewrite Hnone.
Qed.

End ConstructionClaims.

(** C7, as stated, fails when both mappings carry [fov]: the default fixed
    parameters hold [fov = 128], so a row with [fov = 64] is constructed
    with the field of view 128 * RADPERUAS, not 64 * RADPERUAS. *)
Lemma init_fixed_fov_overrides_row :
  let out := init 0 Demo.params_fixed (Demo.start Demo.row_fov64) in
  Demo.row_fov64 !! "fov" = Some (VInt 64)
  ∧ out.1 = inr ()
  ∧ self out.2 !! "fov" = Some (VFloat (fmul (fofZ 128) RADPERUAS))
  ∧ self out.2 !! "fov" ≠ Some (VFloat (fmul (fofZ 64) RADPERUAS)).
Proof.
  split; [by vm_compute|]. split; [by vm_compute|]. split; [by vm_compute|].
  intros Heq.
  apply (f_equal (λ o : option (@value binary64),
                    match o with Some (VFloat x) => Some (Prim2SF x) | _ => None end))
    in Heq.
  vm_compute in Heq. discriminate.
Qed.

Lemma init_converts_once_witness :
  ∃ s1, init 0 Demo.params_fixed (Demo.start Demo.row0) = (inr (), s1)
    ∧ self s1 !! "fov" = Some (VFloat (fmul (fofZ 128) RADPERUAS))
    ∧ self s1 !! "reverse_taper_uas" = Some (VFloat (fmul (fofZ 5) RADPERUAS))
    ∧ self s1 !! "prior_fwhm" = Some (VFloat (fmul (fofZ 40) RADPERUAS))
    ∧ heap s1 = heap (Demo.start Demo.row0)
    ∧ ∃ s2, init 0 Demo.params_fixed s1 = (inr (), s2) ∧ self s2 = self s1.
Proof.
  apply (init_converts_once 0 Demo.params_fixed Demo.row0 (Demo.start Demo.row0)
           (VStr "survey") (VInt 0) (VInt 128) (VInt 5) (VInt 40)
           "survey" "0000000"); reflexivity.
Defined.

(** C8, as stated, fails for a key that construction reads: without [fov]
    in either mapping the missing-attribute error is raised by [__init__]
    itself. *)
Lemma init_raises_on_missing_fov :
  (Demo.params_no_fov ∪ Demo.row0) !! "fov" = None
  ∧ (init 0 Demo.params_no_fov (Demo.start Demo.row0)).1 = inl (AttributeError "fov").
Proof. split; by vm_compute. Qed.

Lemma init_failure_modes_witness :
  let s := Demo.start Demo.row0 in
  let out := init 0 Demo.params_no_fov s in
  (heap out.2 = heap s ∧ files out.2 = files s ∧ log out.2 = log s)
  ∧ (∀ k, k ∈ construction_keys → (Demo.params_no_fov ∪ Demo.row0) !! k = None →
       ∃ e, out.1 = inl e)
  ∧ match out.1 with
    | inr _ =>
        ∀ k, (Demo.params_no_fov ∪ Demo.row0) !! k = None → k ∉ derived_keys →
             getattr k out.2 = (inl (AttributeError k), out.2)
    | inl (AttributeError k) =>
        k ∈ construction_keys ∧ (Demo.params_no_fov ∪ Demo.row0) !! k = None
    | inl e =>
        (e = TypeError ∨ e = Unmodelled) ∧
        ((∃ base, (Demo.params_no_fov ∪ Demo.row0) !! "outfile_base" = Some base
                  ∧ py_str base = inl e)
         ∨ (∃ i, (Demo.params_no_fov ∪ Demo.row0) !! "i" = Some i ∧ fmt_07i i = inl e)
         ∨ (∃ k x, k ∈ ["fov"; "reverse_taper_uas"; "prior_fwhm"]
                   ∧ (Demo.params_no_fov ∪ Demo.row0) !! k = Some x
                   ∧ py_mul x (VFloat RADPERUAS) = inl e))
    end.
Proof.
  intros s out.
  apply (init_failure_modes 0 Demo.params_no_fov Demo.row0 s out.2 out.1).
  - reflexivity.
  - apply surjective_pairing.
Defined.

(** ** Imaging and self-calibration

    The lemmas of this section follow a run of [make_img] in which no
    external call raises. *)

Section Imaging.
Context `{Numerics}.
Variable lib : list event → string → list value → string + value.
Hypothesis lib_total : ∀ h n a, ∃ x, lib h n a = inr x.

Lemma update_all_total (f : value → res value) (g : value → value)
    (d : gmap string value) :
  map_Forall (λ _ x, f x = inr (g x)) d → update_all f d = inr (g <$> d).
Proof.
  intros Hd. unfold update_all.
  assert (Hgen : ∀ m, map_Forall (λ _ x, f x = inr (g x)) m →
            map_fold (λ (k : string) x (acc : res (gmap string value)),
                        acc ≫= λ m0, f x ≫= λ y, inr (<[k := y]> m0)) (inr d) m
            = inr ((g <$> m) ∪ d)).
  { intros m. apply (map_fold_weak_ind (λ r m, map_Forall (λ _ x, f x = inr (g x)) m →
                                                r = inr ((g <$> m) ∪ d))).
    - intros _. by rewrite fmap_empty, (left_id_L ∅ (∪)).
    - intros i x m' r Hi IH Hall.
      apply map_Forall_insert in Hall as [Hx Hall]; [|done].
      rewrite (IH Hall). simpl. rewrite Hx. simpl.
      by rewrite fmap_insert, insert_union_l. }
  rewrite (Hgen d Hd). f_equal. apply map_eq. intros k.
  rewrite lookup_union, lookup_fmap. by destruct (d !! k).
Qed.

Lemma numeric_times (x w : value) :
  numeric w → numeric x → py_mul w x = inr (times x w) ∧ numeric (times x w).
Proof.
  unfold numeric, times, py_mul. intros [a Ha] [b Hb].
  destruct w, x; simpl in *; simplify_eq; (split; [done|]); by eexists.
Qed.

Lemma weights_boosted (x : value) (term : gmap string value) :
  numeric x → weights term → weights (boosted x term).
Proof.
  intros Hx Hw k w. unfold boosted. rewrite lookup_fmap.
  destruct (term !! k) as [w0|] eqn:E; simpl; [|done].
  intros [= <-]. destruct (numeric_times x w0) as [_ Hn]; [by apply (Hw k)|done|exact Hn].
Qed.

Lemma boost_spec (term : gmap string value) (factor : string) (x : value) (s : state)
    (Q : res (gmap string value) → state → Prop) :
  self s !! factor = Some x → numeric x → weights term →
  Q (inr (boosted x term)) s →
  wp (boost term factor) s Q.
Proof.
  intros Hf Hx Hw HQ. unfold boost. case_bool_decide as He.
  - apply wp_ret. subst term. unfold boosted in HQ. by rewrite fmap_empty in HQ.
  - apply wp_bind, wp_getattr. rewrite Hf. apply wp_lift.
    rewrite (update_all_total _ (times x)); [done|].
    intros k w Hk. destruct (numeric_times x w) as [Hm _]; [by apply (Hw k)|done|exact Hm].
Qed.

Lemma steps_to_refl s : is_Some (self s !! "obs_sc") → steps_to s s.
Proof. by intros; split_and!. Qed.

Lemma ready_steps_to s s' : ready s → steps_to s s' → ready s'.
Proof.
  intros Hr (_ & _ & Ho & Hk) k Hin.
  destruct (decide (k = "obs_sc")) as [->|Hne]; [done|].
  rewrite (Hk k Hne). by apply Hr.
Qed.

Ltac ext_ok :=
  apply wp_ext; simpl;
  lazymatch goal with
  | |- match lib ?h ?n ?a with _ => _ end =>
      let x := fresh "x" in
      let E := fresh "E" in
      destruct (lib_total h n a) as [x E]; rewrite E; clear E
  end.

Ltac attr_ok Hready :=
  apply wp_getattr; simpl self;
  rewrite ?lookup_insert_eq; rewrite ?lookup_insert_ne by done;
  lazymatch goal with
  | |- match ?m !! ?k with _ => _ end =>
      let x := fresh "x" in
      let E := fresh "E" in
      destruct (Hready k) as [x E]; [solve [repeat constructor]|]; rewrite E; clear E
  | |- _ => idtac
  end.

Ltac run_step Hready :=
  lazymatch goal with
  | |- wp (_ ≫= _) _ _ => apply wp_bind
  | |- wp (getattr _) _ _ => attr_ok Hready
  | |- wp (ext _ _ _) _ _ => ext_ok
  | |- wp (setattr _ _) _ _ => apply wp_setattr
  | |- wp (mret _) _ _ => apply wp_ret
  end.

Lemma phase_round_spec (res : value) (reg noise : gmap string value) (idx : Z)
    (l : locals) (s : state) (xp : value) :
  ready s → (idx = 0 → self s !! "xdw_phase" = Some xp ∧ numeric xp) →
  weights (data_term l) →
  wp (phase_round lib res reg noise idx l) s (λ r s',
    let term := if idx =? 0 then boosted xp (data_term l) else data_term l in
    (∃ im, r = inr (Locals im term (caltab l)))
    ∧ steps_to s s'
    ∧ selfcal_calls (log s') = selfcal_calls (log s) ++ ["phase"]
    ∧ imager_calls (log s') = imager_calls (log s) ++ [term]).
Proof.
  intros Hready Hxp Hw. unfold phase_round, new_imager, make_image_I.
  apply wp_bind. ext_ok. apply wp_bind. ext_ok.
  apply wp_bind.
  apply (wp_mono _ _ (λ r s',
     r = inr (if idx =? 0 then boosted xp (data_term l) else data_term l) ∧
     s' = State (self s) (heap s) (files s)
            ((log s ++ [("out_last", [imgr l])]) ++ [("blur_circ", [x; res])]))).
  { destruct (idx =? 0) eqn:Eidx.
    - destruct Hxp as [Hxp Hnum]; [lia|]. apply boost_spec with xp; done.
    - by apply wp_ret. }
  intros r s' [-> ->].
  repeat run_step Hready.
  simpl. split_and!.
  - by eexists.
  - split_and!; simpl; [done|done|by rewrite lookup_insert_eq|].
    intros k Hk. by rewrite lookup_insert_ne.
  - unfold selfcal_calls. rewrite !omap_app. simpl. by rewrite !(right_id_L [] (++)).
  - unfold imager_calls. rewrite !omap_app. simpl. by rewrite !(right_id_L [] (++)).
Qed.

Lemma amp_round_spec (res : value) (reg noise : gmap string value) (p idx : Z)
    (l : locals) (s : state) (xa : value) :
  ready s → is_Some (self s !! "gaintol") →
  (p = 0 → self s !! "xdw_ap" = Some xa ∧ numeric xa) →
  weights (data_term l) →
  wp (amp_round lib res reg noise p idx l) s (λ r s',
    let term := if p =? 0 then boosted xa (data_term l) else data_term l in
    (∃ im c, r = inr (Locals im term (Some c)))
    ∧ steps_to s s'
    ∧ selfcal_calls (log s') = selfcal_calls (log s) ++ ["both"]
    ∧ imager_calls (log s') = imager_calls (log s) ++ [term]).
Proof.
  intros Hready0 Hgain Hxa Hw.
  assert (Hready : ∀ k, k ∈ "gaintol" :: round_attrs → is_Some (self s !! k)).
  { intros k [->|Hk]%elem_of_cons; [done|by apply Hready0]. }
  unfold amp_round, new_imager, make_image_I.
  apply wp_bind. ext_ok. apply wp_bind. ext_ok.
  apply wp_bind.
  apply (wp_mono _ _ (λ r s',
     r = inr (if p =? 0 then boosted xa (data_term l) else data_term l) ∧
     s' = State (self s) (heap s) (files s)
            ((log s ++ [("out_last", [imgr l])]) ++ [("blur_circ", [x; res])]))).
  { destruct (p =? 0) eqn:Ep.
    - destruct Hxa as [Hxa Hnum]; [lia|]. apply boost_spec with xa; done.
    - by apply wp_ret. }
  intros r s' [-> ->].
  repeat run_step Hready.
  simpl. split_and!.
  - by do 2 eexists.
  - split_and!; simpl; [done|done|by rewrite lookup_insert_eq|].
    intros k Hk. by rewrite lookup_insert_ne.
  - unfold selfcal_calls. rewrite !omap_app. simpl. by rewrite !(right_id_L [] (++)).
  - unfold imager_calls. rewrite !omap_app. simpl. by rewrite !(right_id_L [] (++)).
Qed.

Lemma steps_to_trans s1 s2 s3 : steps_to s1 s2 → steps_to s2 s3 → steps_to s1 s3.
Proof.
  intros (Hh1 & Hf1 & _ & Hk1) (Hh2 & Hf2 & Ho & Hk2). split_and!; [congruence..|done|].
  intros k Hk. by rewrite Hk2, Hk1.
Qed.

Lemma steps_to_attr s s' k x : steps_to s s' → k ≠ "obs_sc" → self s !! k = Some x → self s' !! k = Some x.
Proof. intros (_ & _ & _ & Hk) Hne Hx. by rewrite Hk. Qed.

Lemma ready_obs_sc s : ready s → is_Some (self s !! "obs_sc").
Proof. intros Hr. apply Hr. repeat constructor. Qed.

(** The phase-only loop once the counter is past zero: no boost. *)
Lemma phase_loop_later (res : value) (reg noise : gmap string value) (n : nat) :
  ∀ (idx : Z) (l : locals) (s : state),
    0 < idx → ready s → weights (data_term l) →
    wp (while_lt n idx (phase_round lib res reg noise) l) s (λ r s',
      (∃ im, r = inr (idx + Z.of_nat n, Locals im (data_term l) (caltab l)))
      ∧ steps_to s s'
      ∧ selfcal_calls (log s') = selfcal_calls (log s) ++ replicate n "phase"
      ∧ imager_calls (log s') = imager_calls (log s) ++ replicate n (data_term l)).
Proof.
  induction n as [|n IH]; intros idx l s Hidx Hready Hw.
  - simpl. apply wp_ret. split_and!.
    + exists (imgr l). destruct l. simpl. do 2 f_equal. lia.
    + by apply steps_to_refl, ready_obs_sc.
    + by rewrite (right_id_L [] (++)).
    + by rewrite (right_id_L [] (++)).
  - simpl while_lt. apply wp_bind.
    eapply wp_mono;
      [apply (phase_round_spec res reg noise idx l s VNone); [done|lia|done]|].
    intros r s1 ([im ->] & Hst & Hsc & Him). cbv beta iota.
    assert (Hz : (idx =? 0) = false) by lia. rewrite Hz in Him. rewrite Hz.
    eapply wp_mono.
    { apply (IH (idx + 1) (Locals im (data_term l) (caltab l)) s1); [lia| |done].
      by eapply ready_steps_to. }
    simpl. intros r s2 ([im2 ->] & Hst2 & Hsc2 & Him2). split_and!.
    + exists im2. do 2 f_equal. lia.
    + by eapply steps_to_trans.
    + rewrite Hsc2, Hsc. by rewrite <- (assoc_L (++)).
    + rewrite Him2, Him. by rewrite <- (assoc_L (++)).
Qed.

(** The phase-only loop from zero: the first trip boosts, the others do not. *)
Lemma phase_loop_spec (res : value) (reg noise : gmap string value) (xp : value)
    (n : nat) (l : locals) (s : state) :
  ready s → (n ≠ 0%nat → self s !! "xdw_phase" = Some xp ∧ numeric xp) →
  weights (data_term l) →
  wp (while_lt n 0 (phase_round lib res reg noise) l) s (λ r s',
    let term := match n with O => data_term l | S _ => boosted xp (data_term l) end in
    (∃ im, r = inr (Z.of_nat n, Locals im term (caltab l)))
    ∧ steps_to s s'
    ∧ selfcal_calls (log s') = selfcal_calls (log s) ++ replicate n "phase"
    ∧ imager_calls (log s') = imager_calls (log s) ++ replicate n (boosted xp (data_term l))).
Proof.
  intros Hready Hxp Hw. destruct n as [|n].
  - simpl. apply wp_ret. split_and!.
    + exists (imgr l). by destruct l.
    + by apply steps_to_refl, ready_obs_sc.
    + by rewrite (right_id_L [] (++)).
    + by rewrite (right_id_L [] (++)).
  - simpl while_lt. apply wp_bind.
    destruct Hxp as [Hxp Hnum]; [done|].
    eapply wp_mono; [by apply (phase_round_spec res reg noise 0 l s xp)|].
    intros r s1 ([im ->] & Hst & Hsc & Him). cbv beta iota in Hsc, Him |- *.
    eapply wp_mono.
    { apply (phase_loop_later res reg noise n 1
               (Locals im (boosted xp (data_term l)) (caltab l)) s1); [lia| |].
      - by eapply ready_steps_to.
      - by apply weights_boosted. }
    simpl. intros r s2 ([im2 ->] & Hst2 & Hsc2 & Him2). split_and!.
    + exists im2. do 2 f_equal. lia.
    + by eapply steps_to_trans.
    + rewrite Hsc2, Hsc. by rewrite <- (assoc_L (++)).
    + rewrite Him2, Him. by rewrite <- (assoc_L (++)).
Qed.

(** The amplitude+phase loop: the boost is decided by [p], the counter of
    the phase loop, so every trip boosts or none does. *)
Lemma amp_loop_spec (res : value) (reg noise : gmap string value) (xa : value)
    (p : Z) (n : nat) :
  ∀ (idx : Z) (l : locals) (s : state),
    ready s → (n ≠ 0%nat → is_Some (self s !! "gaintol")) →
    (n ≠ 0%nat → p = 0 → self s !! "xdw_ap" = Some xa ∧ numeric xa) →
    weights (data_term l) →
    wp (while_lt n idx (amp_round lib res reg noise p) l) s (λ r s',
      let b := if p =? 0 then boosted xa else id in
      (∃ im c, r = inr (idx + Z.of_nat n,
                         Locals im (Nat.iter n b (data_term l))
                           (match n with O => caltab l | S _ => Some c end)))
      ∧ steps_to s s'
      ∧ selfcal_calls (log s') = selfcal_calls (log s) ++ replicate n "both"
      ∧ imager_calls (log s') = imager_calls (log s) ++ amp_terms b (data_term l) n).
Proof.
  induction n as [|n IH]; intros idx l s Hready Hgain Hxa Hw.
  - simpl. apply wp_ret. split_and!.
    + exists (imgr l), VNone. destruct l. simpl. do 2 f_equal. lia.
    + by apply steps_to_refl, ready_obs_sc.
    + by rewrite (right_id_L [] (++)).
    + by rewrite (right_id_L [] (++)).
  - simpl while_lt. apply wp_bind.
    eapply wp_mono; [apply (amp_round_spec res reg noise p idx l s xa); auto|].
    intros r s1 ((im & c & ->) & Hst & Hsc & Him). cbv beta iota.
    set (b := if p =? 0 then boosted xa else id).
    assert (Hb : (if p =? 0 then boosted xa (data_term l) else data_term l) = b (data_term l)).
    { unfold b. by destruct (p =? 0). }
    rewrite Hb in Him. rewrite Hb.
    eapply wp_mono.
    { apply (IH (idx + 1) (Locals im (b (data_term l)) (Some c)) s1).
      - by eapply ready_steps_to.
      - intros _. destruct Hgain as [g Hg]; [done|]. exists g.
        by eapply steps_to_attr.
      - intros _ Hp. destruct Hxa as [Hxa Hnum]; [done..|].
        split; [by eapply steps_to_attr|done].
      - unfold b. destruct (p =? 0) eqn:Ep; [|done].
        destruct Hxa as [Hxa Hnum]; [done|lia|]. by apply weights_boosted. }
    simpl. intros r s2 ((im2 & c2 & ->) & Hst2 & Hsc2 & Him2). split_and!.
    + exists im2, (match n with O => c | S _ => c2 end).
      rewrite Nat.iter_swap. do 2 f_equal; [lia|]. f_equal. by destruct n.
    + by eapply steps_to_trans.
    + rewrite Hsc2, Hsc. by rewrite <- (assoc_L (++)).
    + rewrite Him2, Him. by rewrite <- (assoc_L (++)).
Qed.


Lemma selfcal_rounds_spec (res : value) (reg noise : gmap string value)
    (l : locals) (s : state) (vp va xp xa : value) (n m : nat) :
  ready s →
  self s !! "sc_phase" = Some vp → trip_count vp = inr n →
  self s !! "sc_ap" = Some va → trip_count va = inr m →
  (n ≠ 0%nat → self s !! "xdw_phase" = Some xp ∧ numeric xp) →
  (m ≠ 0%nat → is_Some (self s !! "gaintol")) →
  (m ≠ 0%nat → n = 0%nat → self s !! "xdw_ap" = Some xa ∧ numeric xa) →
  weights (data_term l) →
  wp (selfcal_rounds lib res reg noise l) s (λ r s',
    let after := match n with O => data_term l | S _ => boosted xp (data_term l) end in
    let b := match n with O => boosted xa | S _ => id end in
    (∃ im c, r = inr (Locals im (Nat.iter m b after)
                        (match m with O => caltab l | S _ => Some c end)))
    ∧ steps_to s s'
    ∧ selfcal_calls (log s')
      = selfcal_calls (log s) ++ "phase" :: replicate n "phase" ++ replicate m "both"
    ∧ imager_calls (log s')
      = imager_calls (log s) ++ replicate n (boosted xp (data_term l))
          ++ amp_terms b after m).
Proof.
  intros Hready Hvp Hn Hva Hm Hxp Hgain Hxa Hw. unfold selfcal_rounds.
  apply wp_bind. attr_ok Hready. apply wp_bind. ext_ok.
  apply wp_bind. attr_ok Hready. apply wp_bind. ext_ok.
  apply wp_bind. apply wp_setattr.
  match goal with |- wp _ ?st _ => set (s1 := st) end.
  assert (Hst1 : steps_to s s1).
  { split_and!; simpl; [done|done|by rewrite lookup_insert_eq|].
    intros k Hk. by rewrite lookup_insert_ne. }
  assert (Hlog1 : selfcal_calls (log s1) = selfcal_calls (log s) ++ ["phase"]).
  { unfold s1, selfcal_calls. simpl. rewrite !omap_app. simpl.
    by rewrite !(right_id_L [] (++)). }
  assert (Him1 : imager_calls (log s1) = imager_calls (log s)).
  { unfold s1, imager_calls. simpl. rewrite !omap_app. simpl.
    by rewrite !(right_id_L [] (++)). }
  clearbody s1.
  apply wp_bind, wp_getattr. rewrite (steps_to_attr s s1 "sc_phase" vp Hst1 ltac:(done) Hvp).
  apply wp_bind, wp_lift. rewrite Hn.
  apply wp_bind. eapply wp_mono.
  { apply (phase_loop_spec res reg noise xp n l s1).
    - by eapply ready_steps_to.
    - intros Hn0. destruct (Hxp Hn0) as [Hxp' Hnum]. split; [|done].
      by eapply steps_to_attr.
    - done. }
  cbv beta zeta. intros r s2 ([im ->] & Hst2 & Hsc2 & Him2). cbv beta iota.
  pose proof (steps_to_trans _ _ _ Hst1 Hst2) as Hst02.
  apply wp_bind, wp_getattr. rewrite (steps_to_attr s s2 "sc_ap" va Hst02 ltac:(done) Hva).
  apply wp_bind, wp_lift. rewrite Hm.
  apply wp_bind. eapply wp_mono.
  { apply (amp_loop_spec res reg noise xa (Z.of_nat n) m 0 _ s2).
    - by eapply ready_steps_to.
    - intros Hm0. destruct (Hgain Hm0) as [g Hg]. exists g.
      by eapply steps_to_attr.
    - intros Hm0 Hn0. destruct Hxa as [Hxa Hnum]; [done|lia|].
      split; [by eapply steps_to_attr|done].
    - simpl. destruct n; [done|]. destruct Hxp as [_ Hnum]; [done|].
      by apply weights_boosted. }
  cbv beta zeta. simpl data_term. simpl caltab.
  intros r s3 ((im3 & c & ->) & Hst3 & Hsc3 & Him3). cbv beta iota.
  apply wp_ret. simpl.
  assert (Hb : (if Z.of_nat n =? 0 then boosted xa else id)
               = match n with O => boosted xa | S _ => id end).
  { by destruct n. }
  rewrite Hb in Him3. split_and!.
  - exists im3, c. by rewrite Hb.
  - by eapply steps_to_trans.
  - rewrite Hsc3, Hsc2, Hlog1. by rewrite <- !(assoc_L (++)).
  - rewrite Him3, Him2, Him1. by rewrite <- !(assoc_L (++)).
Qed.


Lemma make_img_static (s : state) (ob sv : value) (dt rg nz : gmap string value) :
  ready s → self s !! "obs" = Some ob →
  self s !! "selfcal" = Some sv → truthy sv = false →
  data_terms (self s) = inr dt → reg_terms (self s) = inr rg →
  systematic_noise (self s) = inr nz →
  wp (make_img lib) s (λ r s',
    r = inl (UnboundLocalError "caltab")
    ∧ is_Some (self s' !! "im_out")
    ∧ names (log s')
      = names (log s) ++ ["Imager"; "res"; "make_image_I"; "out_last"; "copy"]
    ∧ imager_calls (log s') = imager_calls (log s) ++ [dt]).
Proof.
  intros Hready Hob Hsv Hfalse Hdt Hrg Hnz. unfold make_img, new_imager, make_image_I.
  apply wp_bind, wp_get_self.
  apply wp_bind, wp_lift. rewrite Hdt.
  apply wp_bind, wp_lift. rewrite Hrg.
  apply wp_bind, wp_lift. rewrite Hnz.
  repeat run_step Hready.
  apply wp_getattr. simpl self. rewrite Hob.
  repeat run_step Hready.
  apply wp_getattr. simpl self. rewrite Hsv, Hfalse.
  repeat run_step Hready.
  apply wp_raise. simpl. split_and!.
  - done.
  - by rewrite lookup_insert_eq.
  - unfold names. rewrite !fmap_app. simpl. by rewrite <- !(assoc_L (++)).
  - unfold imager_calls. rewrite !omap_app. simpl. by rewrite !(right_id_L [] (++)).
Qed.

Lemma make_img_selfcal (s : state) (ob sv vp va xp xa : value)
    (dt rg nz : gmap string value) (n m : nat) :
  ready s → self s !! "obs" = Some ob →
  self s !! "selfcal" = Some sv → truthy sv = true →
  data_terms (self s) = inr dt → reg_terms (self s) = inr rg →
  systematic_noise (self s) = inr nz → weights dt →
  self s !! "sc_phase" = Some vp → trip_count vp = inr n →
  self s !! "sc_ap" = Some va → trip_count va = inr m →
  (n ≠ 0%nat → self s !! "xdw_phase" = Some xp ∧ numeric xp) →
  (m ≠ 0%nat → is_Some (self s !! "gaintol")) →
  (m ≠ 0%nat → n = 0%nat → self s !! "xdw_ap" = Some xa ∧ numeric xa) →
  wp (make_img lib) s (λ r s',
    let after := match n with O => dt | S _ => boosted xp dt end in
    let b := match n with O => boosted xa | S _ => id end in
    r = match m with O => inl (UnboundLocalError "caltab") | S _ => inr () end
    ∧ is_Some (self s' !! "im_out")
    ∧ selfcal_calls (log s')
      = selfcal_calls (log s) ++ "phase" :: replicate n "phase" ++ replicate m "both"
    ∧ imager_calls (log s')
      = imager_calls (log s) ++ dt :: replicate n (boosted xp dt) ++ amp_terms b after m).
Proof.
  intros Hready Hob Hsv Htrue Hdt Hrg Hnz Hw Hvp Hn Hva Hm Hxp Hgain Hxa.
  unfold make_img, new_imager, make_image_I.
  apply wp_bind, wp_get_self.
  apply wp_bind, wp_lift. rewrite Hdt.
  apply wp_bind, wp_lift. rewrite Hrg.
  apply wp_bind, wp_lift. rewrite Hnz.
  repeat run_step Hready.
  apply wp_getattr. simpl self. rewrite Hob.
  repeat run_step Hready.
  apply wp_getattr. simpl self. rewrite Hsv, Htrue.
  match goal with |- wp _ ?st _ => set (s1 := st) end.
  assert (Hsc1 : selfcal_calls (log s1) = selfcal_calls (log s)).
  { unfold s1, selfcal_calls. simpl. rewrite !omap_app. simpl.
    by rewrite !(right_id_L [] (++)). }
  assert (Him1 : imager_calls (log s1) = imager_calls (log s) ++ [dt]).
  { unfold s1, imager_calls. simpl. rewrite !omap_app. simpl.
    by rewrite !(right_id_L [] (++)). }
  assert (Hself1 : self s1 = self s) by done.
  clearbody s1.
  apply wp_bind. eapply wp_mono.
  { apply (selfcal_rounds_spec _ rg nz _ s1 vp va xp xa n m);
      rewrite ?Hself1; try done. unfold ready. by rewrite Hself1. }
  cbv beta zeta. simpl data_term. simpl caltab.
  intros r s2 ((im & c & ->) & Hst & Hsc2 & Him2). cbv beta iota.
  apply wp_bind. ext_ok. apply wp_bind. ext_ok. apply wp_bind, wp_setattr.
  simpl caltab. destruct m as [|m].
  - apply wp_raise. simpl in Hsc2, Him2 |- *.
    rewrite ?(right_id_L [] (++)) in Hsc2. rewrite ?(right_id_L [] (++)) in Him2.
    rewrite ?(right_id_L [] (++)).
    split_and!; [done|rewrite lookup_insert_eq; by eexists|..].
    + unfold selfcal_calls in *. rewrite !omap_app. simpl.
      rewrite !(right_id_L [] (++)). by rewrite Hsc2, Hsc1.
    + unfold imager_calls in *. rewrite !omap_app. simpl.
      rewrite !(right_id_L [] (++)). rewrite Him2, Him1. by rewrite <- !(assoc_L (++)).
  - apply wp_setattr. simpl. split_and!;
      [done|rewrite lookup_insert_ne by done; rewrite lookup_insert_eq; by eexists|..].
    + unfold selfcal_calls in *. rewrite !omap_app. simpl.
      rewrite !(right_id_L [] (++)). by rewrite Hsc2, Hsc1.
    + unfold imager_calls in *. rewrite !omap_app. simpl.
      rewrite !(right_id_L [] (++)). rewrite Him2, Him1. by rewrite <- !(assoc_L (++)).
Qed.

Lemma amp_terms_id (term : gmap string value) (m : nat) :
  amp_terms id term m = replicate m term.
Proof. induction m as [|m IH]; simpl; [done|]. by rewrite IH. Qed.

Lemma amp_terms_iter (b : gmap string value → gmap string value)
    (term : gmap string value) (m : nat) :
  amp_terms b term m = (λ k, Nat.iter (S k) b term) <$> seq 0 m.
Proof.
  revert term. induction m as [|m IH]; intros term; [done|].
  simpl. f_equal. rewrite IH, <- fmap_S_seq, <- list_fmap_compose.
  apply list_fmap_ext. intros _ k _. simpl. by rewrite Nat.iter_swap.
Qed.

(** C3 (amended). With self-calibration enabled, [sc_phase = 2] and
    [sc_ap = 0], and no external call raising, [make_img] makes three
    phase-only self-calibration calls (the one of lines 220-221 before the
    loop, then one per trip of the loop) and no amplitude+phase call; the
    three imagers receive the weights as configured, then multiplied once
    by [xdw_phase], then those same boosted weights again: the boost is
    applied once, on the first trip of the phase-only loop. *)
Theorem make_img_phase_only (s s' : state) (r : res ()) (ob sv xp : value)
    (dt rg nz : gmap string value) :
  ready s → self s !! "obs" = Some ob →
  self s !! "selfcal" = Some sv → truthy sv = true →
  data_terms (self s) = inr dt → reg_terms (self s) = inr rg →
  systematic_noise (self s) = inr nz → weights dt →
  self s !! "sc_phase" = Some (VInt 2) → self s !! "sc_ap" = Some (VInt 0) →
  self s !! "xdw_phase" = Some xp → numeric xp →
  make_img lib s = (r, s') →
  selfcal_calls (log s') = selfcal_calls (log s) ++ ["phase"; "phase"; "phase"]
  ∧ imager_calls (log s')
    = imager_calls (log s) ++ [dt; boosted xp dt; boosted xp dt].
Proof.
  intros Hready Hob Hsv Htrue Hdt Hrg Hnz Hw Hvp Hva Hxp Hnum Hrun.
  pose proof (make_img_selfcal s ob sv (VInt 2) (VInt 0) xp VNone dt rg nz 2 0
                Hready Hob Hsv Htrue Hdt Hrg Hnz Hw Hvp eq_refl Hva eq_refl) as Hwp.
  eapply wp_elim in Hwp; [|by auto|done|done|exact Hrun].
  by destruct Hwp as (_ & _ & Hsc & Him).
Qed.

(** C4 (amended). The amplitude+phase loop tests the counter that the
    phase-only loop left behind.  With [n] phase-only trips and [m]
    amplitude+phase trips (and no external call raising): when [n = 0] the
    boost by [xdw_ap] is applied on every amplitude+phase trip, so the
    imager of trip [k] (from 0) receives the weights multiplied [k + 1]
    times; when the phase loop ran at least once, the amplitude+phase loop
    never boosts and each of its imagers receives the weights as the phase
    loop left them. *)
Theorem make_img_amp_boost (s s' : state) (r : res ()) (ob sv vp va xp xa : value)
    (dt rg nz : gmap string value) (n m : nat) :
  ready s → self s !! "obs" = Some ob →
  self s !! "selfcal" = Some sv → truthy sv = true →
  data_terms (self s) = inr dt → reg_terms (self s) = inr rg →
  systematic_noise (self s) = inr nz → weights dt →
  self s !! "sc_phase" = Some vp → trip_count vp = inr n →
  self s !! "sc_ap" = Some va → trip_count va = inr m →
  (n ≠ 0%nat → self s !! "xdw_phase" = Some xp ∧ numeric xp) →
  (m ≠ 0%nat → is_Some (self s !! "gaintol")) →
  (m ≠ 0%nat → n = 0%nat → self s !! "xdw_ap" = Some xa ∧ numeric xa) →
  make_img lib s = (r, s') →
  imager_calls (log s')
  = imager_calls (log s) ++ dt :: replicate n (boosted xp dt)
      ++ match n with
         | O => (λ k, Nat.iter (S k) (boosted xa) dt) <$> seq 0 m
         | S _ => replicate m (boosted xp dt)
         end.
Proof.
  intros Hready Hob Hsv Htrue Hdt Hrg Hnz Hw Hvp Hn Hva Hm Hxp Hgain Hxa Hrun.
  pose proof (make_img_selfcal s ob sv vp va xp xa dt rg nz n m
                Hready Hob Hsv Htrue Hdt Hrg Hnz Hw Hvp Hn Hva Hm Hxp Hgain Hxa) as Hwp.
  eapply wp_elim in Hwp; [|exact Hrun].
  destruct Hwp as (_ & _ & _ & Him). rewrite Him. do 3 f_equal.
  destruct n; [apply amp_terms_iter|apply amp_terms_id].
Qed.

End Imaging.

(** ** The imaging stage on explicit inputs *)

Lemma demo_lib_total (h : list event) (n : string) (a : list value) :
  ∃ x, Demo.lib h n a = inr x.
Proof.
  unfold Demo.lib, Demo.answer.
  case_bool_decide as Hb; [by apply elem_of_nil in Hb|].
  repeat (case_bool_decide; [by eexists|]).
  repeat case_match; by eexists.
Qed.

Lemma res_get {A} (r : res A) (d : A) :
  returned r = true → r = inr (match r with inr a => a | inl _ => d end).
Proof. by destruct r. Qed.

Lemma lookup_get {A} (m : gmap string A) (k : string) (d : A) :
  present (m !! k) = true → m !! k = Some (default d (m !! k)).
Proof. by destruct (m !! k). Qed.

Lemma ready_check (s : state) :
  forallb (λ k, present (self s !! k)) round_attrs = true → ready s.
Proof.
  intros Hall k Hk. rewrite forallb_forall in Hall.
  apply list_elem_of_In, Hall in Hk. by destruct (self s !! k).
Qed.

(** C2. With [selfcal = False] and a library in which no call raises,
    [make_img] runs the imager once, makes no self-calibration call and
    stores [im_out]; then line 278 reads the local [caltab], which was
    never assigned, and the stage raises instead of completing. *)
Lemma make_img_without_selfcal_raises :
  self Demo.s_static !! "selfcal" = Some (VBool false)
  ∧ (make_img Demo.lib Demo.s_static).1 = inl (UnboundLocalError "caltab")
  ∧ names (log (make_img Demo.lib Demo.s_static).2)
    = names (log Demo.s_static)
        ++ ["Imager"; "res"; "make_image_I"; "out_last"; "copy"]
  ∧ selfcal_calls (log (make_img Demo.lib Demo.s_static).2) = []
  ∧ present (self (make_img Demo.lib Demo.s_static).2 !! "im_out") = true
  ∧ present (self (make_img Demo.lib Demo.s_static).2 !! "caltab") = false.
Proof. split_and!; vm_compute; reflexivity. Qed.

(** C6. With the diagnostic-closure flag set, [logcamp_diag = 1] and
    [cphase_diag = 2] select the diagnostic terms, but lines 176 and 178
    store the weights [logcamp] and [cphase]: the mapping holds
    [logcamp_diag] with the weight 0 and [cphase_diag] with the weight 5. *)
Lemma data_terms_diag_takes_standard_weights :
  Demo.attrs_diag !! "logcamp_diag" = Some (VFloat 1%float)
  ∧ Demo.attrs_diag !! "cphase_diag" = Some (VFloat 2%float)
  ∧ match data_terms Demo.attrs_diag with
    | inr t =>
        map_to_list t
        = [("cphase_diag", VFloat 5%float); ("amp", VFloat 0.25%float);
           ("logcamp_diag", VFloat 0%float)]
    | inl _ => False
    end.
Proof. split_and!; vm_compute; reflexivity. Qed.

Lemma weights_check `{Numerics} (term : gmap string value) :
  forallb (λ kw : string * value, present (as_float kw.2)) (map_to_list term) = true →
  weights term.
Proof.
  intros Hall k w Hk. rewrite forallb_forall in Hall.
  apply elem_of_map_to_list, list_elem_of_In, Hall in Hk. simpl in Hk.
  unfold numeric. by destruct (as_float w).
Qed.

(** C3, as stated, fails: with [sc_phase = 2] and [sc_ap = 0] the imaging
    stage makes three phase-only self-calibration calls, not two; the
    call of lines 220-221 precedes the loop. *)
Lemma make_img_phase_only_three_selfcals :
  self Demo.s_phase_only !! "selfcal" = Some (VBool true)
  ∧ self Demo.s_phase_only !! "sc_phase" = Some (VInt 2)
  ∧ self Demo.s_phase_only !! "sc_ap" = Some (VInt 0)
  ∧ selfcal_calls (log Demo.s_phase_only) = []
  ∧ selfcal_calls (log (make_img Demo.lib Demo.s_phase_only).2)
    = ["phase"; "phase"; "phase"]
  ∧ length (selfcal_calls (log (make_img Demo.lib Demo.s_phase_only).2)) ≠ 2%nat.
Proof. split_and!; vm_compute; first [reflexivity | discriminate]. Qed.

Lemma make_img_phase_only_witness :
  selfcal_calls (log (make_img Demo.lib Demo.s_phase_only).2)
  = selfcal_calls (log Demo.s_phase_only) ++ ["phase"; "phase"; "phase"]
  ∧ imager_calls (log (make_img Demo.lib Demo.s_phase_only).2)
    = imager_calls (log Demo.s_phase_only)
        ++ [Demo.terms_of data_terms Demo.s_phase_only;
            boosted (VInt 10) (Demo.terms_of data_terms Demo.s_phase_only);
            boosted (VInt 10) (Demo.terms_of data_terms Demo.s_phase_only)].
Proof.
  apply (make_img_phase_only Demo.lib demo_lib_total Demo.s_phase_only
           (make_img Demo.lib Demo.s_phase_only).2
           (make_img Demo.lib Demo.s_phase_only).1
           (default VNone (self Demo.s_phase_only !! "obs"))
           (VBool true) (VInt 10)
           (Demo.terms_of data_terms Demo.s_phase_only)
           (Demo.terms_of reg_terms Demo.s_phase_only)
           (Demo.terms_of systematic_noise Demo.s_phase_only)).
  - apply ready_check. vm_compute. reflexivity.
  - apply lookup_get. vm_compute. reflexivity.
  - vm_compute. reflexivity.
  - reflexivity.
  - apply res_get. vm_compute. reflexivity.
  - apply res_get. vm_compute. reflexivity.
  - apply res_get. vm_compute. reflexivity.
  - apply weights_check. vm_compute. reflexivity.
  - vm_compute. reflexivity.
  - vm_compute. reflexivity.
  - vm_compute. reflexivity.
  - by eexists.
  - apply surjective_pairing.
Defined.

(** C4, as stated, fails: with no phase-only round, two amplitude+phase
    rounds and [xdw_ap = 2], the closure-phase weight handed to the three
    imagers is 1, 2 and 4: the boost is applied on the second
    amplitude+phase round as well as on the first. *)
Lemma amp_boost_on_every_round :
  self Demo.s_amp_only !! "sc_phase" = Some (VInt 0)
  ∧ self Demo.s_amp_only !! "sc_ap" = Some (VInt 2)
  ∧ self Demo.s_amp_only !! "xdw_ap" = Some (VInt 2)
  ∧ (λ t : gmap string value, t !! "cphase")
      <$> imager_calls (log (make_img Demo.lib Demo.s_amp_only).2)
    = [Some (VInt 1); Some (VInt 2); Some (VInt 4)].
Proof. split_and!; vm_compute; reflexivity. Qed.

Lemma make_img_amp_boost_witness :
  imager_calls (log (make_img Demo.lib Demo.s_amp_only).2)
  = imager_calls (log Demo.s_amp_only)
      ++ Demo.terms_of data_terms Demo.s_amp_only
         :: replicate 0 (boosted VNone (Demo.terms_of data_terms Demo.s_amp_only))
      ++ ((λ k, Nat.iter (S k) (boosted (VInt 2))
                  (Demo.terms_of data_terms Demo.s_amp_only)) <$> seq 0 2).
Proof.
  apply (make_img_amp_boost Demo.lib demo_lib_total Demo.s_amp_only
           (make_img Demo.lib Demo.s_amp_only).2
           (make_img Demo.lib Demo.s_amp_only).1
           (default VNone (self Demo.s_amp_only !! "obs"))
           (VBool true) (VInt 0) (VInt 2) VNone (VInt 2)
           (Demo.terms_of data_terms Demo.s_amp_only)
           (Demo.terms_of reg_terms Demo.s_amp_only)
           (Demo.terms_of systematic_noise Demo.s_amp_only) 0 2).
  - apply ready_check. vm_compute. reflexivity.
  - apply lookup_get. vm_compute. reflexivity.
  - vm_compute. reflexivity.
  - reflexivity.
  - apply res_get. vm_compute. reflexivity.
  - apply res_get. vm_compute. reflexivity.
  - apply res_get. vm_compute. reflexivity.
  - apply weights_check. vm_compute. reflexivity.
  - vm_compute. reflexivity.
  - reflexivity.
  - vm_compute. reflexivity.
  - reflexivity.
  - intros Hn. by destruct Hn.
  - intros _. apply (bool_decide_eq_true_1 _). vm_compute. reflexivity.
  - intros _ _. split; [vm_compute; reflexivity|by eexists].
  - apply surjective_pairing.
Defined.

(** ** What the stages leave alone, and what [save_params] shares *)

Section Frame.
Context `{Numerics}.
Variable lib : list event → string → list value → string + value.

Lemma kept_refl s : kept s s.
Proof. split_and!; try done. exists []. by rewrite (right_id_L [] (++)). Qed.










Lemma keeps_path_exists (p : string) : keeps (path_exists p).
Proof. intros s. apply kept_refl. Qed.


















End Frame.



(** C1. A run whose statistics stage raises (the ground-truth image cannot
    be loaded) has already written its parameter-record marker: the run
    fails, the marker exists, no statistics file exists, and the next
    invocation skips every stage, so the statistics are never produced. *)
Lemma marker_written_before_statistics :
  let first := run_pset Demo.lib_no_truth 0 VNone Demo.params_truth (Demo.start Demo.row0) in
  let again := run_pset Demo.lib_no_truth 0 VNone Demo.params_truth
                 (State ∅ {[ 0%nat := Demo.row0 ]} (files first.2) []) in
  Demo.params_truth !! "save_stats" = Some (VBool true)
  ∧ first.1 = inl (ExtError "load_fits" "injected failure")
  ∧ bool_decide ("out/survey_0000000_params.csv" ∈ files first.2) = true
  ∧ bool_decide ("out/survey_0000000_stats.csv" ∈ files first.2) = false
  ∧ again.1 = inr ()
  ∧ names (log again.2) = ["makedirs"]
  ∧ bool_decide ("out/survey_0000000_stats.csv" ∈ files again.2) = false.
Proof. split_and!; vm_compute; reflexivity. Qed.
